(** * The node content modal of the JSON graph editor

    A shallow embedding of [src/features/modals/NodeModal/index.tsx]: the
    helpers [getValueAtPath], [normalizeNodeData] and [jsonPathToString], and
    the handlers of the [NodeModal] component ([handleEdit], [handleCancel],
    [handleSave], the reset effect and the re-selection timer).

    The file has four parts: the fragment of the JavaScript runtime the
    component relies on (module [Js]), the component itself, the properties
    the specification states of it, and further properties the code has. *)

From Stdlib Require Import ZArith NArith List String Ascii Bool Lia.
From Stdlib Require Import Floats.SpecFloat.
Import ListNotations.

Local Open Scope Z_scope.
Set Warnings "-register-all".

(* ===================================================================== *)
(** * Part 1: the JavaScript runtime, as far as the component uses it   *)
(* ===================================================================== *)

Module Js.

(** ** Strings

    A JavaScript string is a sequence of UTF-16 code units. *)

Definition JsString : Type := list N.

(** The code units of an ASCII literal. *)
Definition lit (s : string) : JsString :=
  map N_of_ascii (list_ascii_of_string s).

Definition str_eq_dec : forall a b : JsString, {a = b} + {a <> b} :=
  list_eq_dec N.eq_dec.

Definition str_eqb (a b : JsString) : bool :=
  if str_eq_dec a b then true else false.

(** Truthiness of a string: every string but the empty one. *)
Definition str_truthy (s : JsString) : bool :=
  match s with [] => false | _ :: _ => true end.

Definition DQUOTE : N := 34.
Definition BACKSLASH : N := 92.

(** [Array.prototype.join] over elements already converted to strings:
    the separator goes before every element but the first. *)
Fixpoint join_from (sep : JsString) (started : bool) (R : JsString)
  (elements : list JsString) : JsString :=
  match elements with
  | [] => R
  | e :: rest =>
      join_from sep true ((if started then R ++ sep else R) ++ e) rest
  end.

Definition join (sep : JsString) (elements : list JsString) : JsString :=
  join_from sep false [] elements.

(** White space of [String.prototype.trim]: WhiteSpace and LineTerminator. *)
Definition is_trim_space (c : N) : bool :=
  match c with
  | 9 | 10 | 11 | 12 | 13 | 32 | 160 | 5760 | 8232 | 8233 | 8239 | 8287
  | 12288 | 65279 => true
  | _ => (8192 <=? c)%N && (c <=? 8202)%N
  end%N.

Fixpoint trim_start (s : JsString) : JsString :=
  match s with
  | c :: rest => if is_trim_space c then trim_start rest else s
  | [] => []
  end.

Definition trim (s : JsString) : JsString :=
  rev (trim_start (rev (trim_start s))).

(** ** Numbers

    A JavaScript number is an IEEE 754 binary64 value, here the standard
    library's [spec_float] with precision 53 and maximal exponent 1024. *)

Module Number.

Definition number : Type := spec_float.
Definition prec : Z := 53.
Definition emax : Z := 1024.

(** The binary64 value nearest to [(-1)^neg * num / den], ties to even.
    The quotient is taken with more than 64 significant bits and a sticky
    last bit, then rounded once. *)
Definition of_ratio (neg : bool) (num den : Z) : number :=
  if num =? 0 then S754_zero neg else
  let s := Z.max 0 (64 + Z.log2_up den - Z.log2 num) in
  let q := (num * 2 ^ s) / den in
  let r := (num * 2 ^ s) mod den in
  let mant := 2 * q + (if r =? 0 then 0 else 1) in
  binary_normalize prec emax (if neg then - mant else mant) (- (s + 1)) neg.

(** The number denoted by the decimal [(-1)^neg * m * 10^e]. *)
Definition of_decimal (neg : bool) (m e : Z) : number :=
  if 0 <=? e then of_ratio neg (m * 10 ^ e) 1
  else of_ratio neg m (10 ^ (- e)).

Definition of_nat (n : nat) : number := of_ratio false (Z.of_nat n) 1.

Definition same (a b : number) : bool :=
  match a, b with
  | S754_finite s m e, S754_finite s' m' e' =>
      Bool.eqb s s' && Pos.eqb m m' && (e =? e')
  | S754_zero s, S754_zero s' => Bool.eqb s s'
  | S754_infinity s, S754_infinity s' => Bool.eqb s s'
  | S754_nan, S754_nan => true
  | _, _ => false
  end.

Definition is_finite (a : number) : bool :=
  match a with
  | S754_finite _ _ _ | S754_zero _ => true
  | _ => false
  end.

Fixpoint digits_from (fuel : nat) (z : Z) (acc : JsString) : JsString :=
  match fuel with
  | O => acc
  | S f =>
      let acc' := Z.to_N (48 + z mod 10) :: acc in
      if z / 10 =? 0 then acc' else digits_from f (z / 10) acc'
  end.

(** The decimal digits of a non-negative integer. *)
Definition digits (z : Z) : JsString :=
  digits_from (S (Z.to_nat (Z.log2 z))) z [].

(** [10^n <= num / den], for positive [num] and [den]. *)
Definition pow10_le (n num den : Z) : bool :=
  if 0 <=? n then 10 ^ n * den <=? num else den <=? num * 10 ^ (- n).

(** The [n] with [10^(n-1) <= num/den < 10^n]. *)
Definition magnitude (num den : Z) : Z :=
  let est := ((Z.log2 num - Z.log2 den) * 30103) / 100000 in
  match
    find (fun n => pow10_le (n - 1) num den)
      [est + 3; est + 2; est + 1; est; est - 1; est - 2]
  with
  | Some n => n
  | None => est
  end.

(** The [k]-digit decimals [s * 10^(n-k)] next to [x = num/den] that read
    back as [x], the nearer one first (the even one on a tie). *)
Definition candidates (x : number) (num den n k : Z) : list (Z * Z) :=
  let '(a, b) :=
    if 0 <=? k - n then (num * 10 ^ (k - n), den)
    else (num, den * 10 ^ (n - k)) in
  let lo := a / b in
  let reads_back c :=
    (10 ^ (k - 1) <=? c) && (c <=? 10 ^ k)
    && same (of_decimal false c (n - k)) x in
  let dlo := a - lo * b in
  let dhi := (lo + 1) * b - a in
  let ordered :=
    if (dlo <? dhi) || ((dlo =? dhi) && Z.even lo)
    then [lo; lo + 1] else [lo + 1; lo] in
  map (fun c => if c =? 10 ^ k then (10 ^ (k - 1), n + 1) else (c, n))
      (filter reads_back ordered).

(** Number::toString, step 5: the [n], [k] and [s] with [k] as small as
    possible such that [s * 10^(n-k)] is [x]. *)
Definition shortest (x : number) (num den : Z) : Z * Z * Z :=
  let n := magnitude num den in
  let attempt k :=
    match candidates x num den n k with
    | c :: _ => Some (k, c)
    | [] => None
    end in
  match
    fold_right
      (fun k later => match attempt k with Some c => Some c | None => later end)
      None [1; 2; 3; 4; 5; 6; 7; 8; 9; 10; 11; 12; 13; 14; 15; 16; 17]
  with
  | Some (k, (s, n')) => (s, k, n')
  | None => (0, 1, 1)
  end.

(** Number::toString, steps 6 to 10. *)
Definition format (s k n : Z) : JsString :=
  let d := digits s in
  let zeros z := repeat 48%N (Z.to_nat z) in
  if (k <=? n) && (n <=? 21) then d ++ zeros (n - k)
  else if (0 <? n) && (n <=? 21)
  then firstn (Z.to_nat n) d ++ [46%N] ++ skipn (Z.to_nat n) d
  else if (-6 <? n) && (n <=? 0) then [48%N; 46%N] ++ zeros (- n) ++ d
  else
    let ex := n - 1 in
    let tail :=
      [101%N; (if ex <? 0 then 45%N else 43%N)] ++ digits (Z.abs ex) in
    if k =? 1 then d ++ tail
    else firstn 1 d ++ [46%N] ++ skipn 1 d ++ tail.

(** Number::toString with radix 10. *)
Definition toString (x : number) : JsString :=
  match x with
  | S754_nan => lit "NaN"
  | S754_zero _ => lit "0"
  | S754_infinity s => (if s then [45%N] else []) ++ lit "Infinity"
  | S754_finite sg m e =>
      let '(num, den) :=
        if 0 <=? e then (Z.pos m * 2 ^ e, 1) else (Z.pos m, 2 ^ (- e)) in
      let '(s, k, n) := shortest (S754_finite false m e) num den in
      (if sg then [45%N] else []) ++ format s k n
  end.

End Number.

(** ** Values *)

Inductive JsValue : Type :=
| JUndefined
| JNull
| JBool (b : bool)
| JNum (n : Number.number)
| JStr (s : JsString)
| JArr (items : list JsValue)
| JObj (props : list (JsString * JsValue))
  (** an ordinary object: its own enumerable properties, in the order
      OrdinaryOwnPropertyKeys lists them *)
| JHost (is_object is_array : bool) (h : N).
  (** an object of the runtime that is no JSON data (a built-in function or
      prototype), with what [typeof] and [Array.isArray] say of it *)

(** ** Own properties of ordinary objects *)

Definition Props (V : Type) : Type := list (JsString * V).

Definition is_digit (c : N) : bool := ((48 <=? c) && (c <=? 57))%N.

Definition digits_value (ds : JsString) : Z :=
  fold_left (fun acc c => 10 * acc + (Z.of_N c - 48)) ds 0.

(** A property key is an array index when it is the canonical decimal
    form of an integer below [2^32 - 1]. *)
Definition array_index (k : JsString) : option Z :=
  match k with
  | [] => None
  | c :: rest =>
      if forallb is_digit k
         && (negb (N.eqb c 48) || match rest with [] => true | _ => false end)
         && (Z.of_nat (List.length k) <=? 10)
         && (digits_value k <? 4294967295)
      then Some (digits_value k) else None
  end.

Section Properties.
Context {V : Type}.

Fixpoint lookup (k : JsString) (props : Props V) : option V :=
  match props with
  | [] => None
  | (k', v) :: rest => if str_eq_dec k k' then Some v else lookup k rest
  end.

Definition has_own (k : JsString) (props : Props V) : bool :=
  match lookup k props with Some _ => true | None => false end.

Fixpoint overwrite (k : JsString) (v : V) (props : Props V) : Props V :=
  match props with
  | [] => []
  | (k', v') :: rest =>
      if str_eq_dec k k' then (k', v) :: rest
      else (k', v') :: overwrite k v rest
  end.

(** A new array-index key goes after the smaller index keys. *)
Fixpoint insert_index (i : Z) (k : JsString) (v : V) (props : Props V)
  : Props V :=
  match props with
  | [] => [(k, v)]
  | (k', v') :: rest =>
      match array_index k' with
      | Some j =>
          if j <? i then (k', v') :: insert_index i k v rest
          else (k, v) :: props
      | None => (k, v) :: props
      end
  end.

(** CreateDataProperty on an ordinary object: an existing key keeps its
    place and takes the new value; a new key is listed among the array
    indices in ascending order, or after every other key. *)
Definition define (k : JsString) (v : V) (props : Props V) : Props V :=
  if has_own k props then overwrite k v props
  else
    match array_index k with
    | Some i => insert_index i k v props
    | None => props ++ [(k, v)]
    end.

(** CopyDataProperties, what [...source] does inside an object literal:
    for each own key of the source, in order, the value read from the
    source is defined on the target. *)
Definition copy_property (source : Props V) (target : Props V) (k : JsString)
  : Props V :=
  match lookup k source with
  | Some v => define k v target
  | None => target
  end.

Definition copy_properties (target source : Props V) : Props V :=
  fold_left (copy_property source) (map fst source) target.

End Properties.

(** The object literal [{ ...a, ...b }]. *)
Definition spread2 {V : Type} (a b : Props V) : Props V :=
  copy_properties (copy_properties [] a) b.

(** ** JSON.parse

    The text is read in one pass into tokens, and the tokens in one pass
    into a value, with the containers under construction on a stack.
    [None] stands for the SyntaxError the runtime raises. *)

Inductive Token : Type :=
| TLBrace | TRBrace | TLBracket | TRBracket | TColon | TComma
| TString (s : JsString)
| TScalar (v : JsValue).

(** JSON white space: tab, line feed, carriage return and space. *)
Definition is_json_space (c : N) : bool :=
  match c with
  | 9 | 10 | 13 | 32 => true
  | _ => false
  end%N.

(** The characters of numbers and of the literals [null], [true] and
    [false]. None of them may follow a complete scalar, so a scalar is read
    as the longest run of them. *)
Definition is_word_char (c : N) : bool :=
  (is_digit c || N.eqb c 45 || N.eqb c 43 || N.eqb c 46
   || ((97 <=? c) && (c <=? 122)) || ((65 <=? c) && (c <=? 90)))%N.

Definition hex_value (c : N) : option N :=
  (if (48 <=? c) && (c <=? 57) then Some (c - 48)
   else if (97 <=? c) && (c <=? 102) then Some (c - 87)
   else if (65 <=? c) && (c <=? 70) then Some (c - 55)
   else None)%N.

(** The longest prefix of digits, and the rest. *)
Fixpoint span_digits (w : JsString) : JsString * JsString :=
  match w with
  | c :: rest =>
      if is_digit c
      then let '(ds, r) := span_digits rest in (c :: ds, r)
      else ([], w)
  | [] => ([], [])
  end.

(** The exponent part of a number: nothing, or [e] or [E], an optional
    sign and at least one digit, up to the end of the word. *)
Definition read_exponent (w : JsString) : option Z :=
  match w with
  | [] => Some 0
  | c :: rest =>
      if (N.eqb c 101 || N.eqb c 69)%N then
        let '(negative, rest') :=
          match rest with
          | s :: r =>
              if N.eqb s 45 then (true, r)
              else if N.eqb s 43 then (false, r) else (false, rest)
          | [] => (false, rest)
          end in
        match span_digits rest' with
        | ((_ :: _) as ds, []) =>
            Some (if negative then - digits_value ds else digits_value ds)
        | _ => None
        end
      else None
  end.

(** JSONNumber: an optional minus sign; the integer part, a single zero
    or digits that do not start with a zero; an optional fraction, a dot
    and at least one digit; an optional exponent. *)
Definition read_number (w : JsString) : option Number.number :=
  let '(neg, w1) :=
    match w with
    | c :: r => if N.eqb c 45 then (true, r) else (false, w)
    | [] => (false, w)
    end in
  match span_digits w1 with
  | ([], _) => None
  | ((c :: more) as int_part, w2) =>
      if N.eqb c 48 && match more with [] => false | _ => true end then None
      else
        let '(frac, w3, ok) :=
          match w2 with
          | d :: r =>
              if N.eqb d 46 then
                match span_digits r with
                | ([], _) => ([], r, false)
                | (fs, r') => (fs, r', true)
                end
              else ([], w2, true)
          | [] => ([], w2, true)
          end in
        if ok then
          match read_exponent w3 with
          | Some ex =>
              Some (Number.of_decimal neg (digits_value (int_part ++ frac))
                      (ex - Z.of_nat (List.length frac)))
          | None => None
          end
        else None
  end.

Definition read_word (w : JsString) : option Token :=
  if str_eq_dec w (lit "null") then Some (TScalar JNull)
  else if str_eq_dec w (lit "true") then Some (TScalar (JBool true))
  else if str_eq_dec w (lit "false") then Some (TScalar (JBool false))
  else match read_number w with
       | Some n => Some (TScalar (JNum n))
       | None => None
       end.

Inductive LexMode : Type :=
| Idle
| InWord (buf : JsString)
| InString (buf : JsString)
| InEscape (buf : JsString)
| InUnicode (buf : JsString) (hex : list N).
  (** the buffers hold what was read so far, last character first *)

Definition punctuation (c : N) : option Token :=
  match c with
  | 123 => Some TLBrace
  | 125 => Some TRBrace
  | 91 => Some TLBracket
  | 93 => Some TRBracket
  | 58 => Some TColon
  | 44 => Some TComma
  | _ => None
  end%N.

(** A character read between tokens. *)
Definition lex_idle (c : N) : option (LexMode * list Token) :=
  if is_json_space c then Some (Idle, [])
  else if N.eqb c DQUOTE then Some (InString [], [])
  else if is_word_char c then Some (InWord [c], [])
  else match punctuation c with
       | Some t => Some (Idle, [t])
       | None => None
       end.

Definition unescape (c : N) : option N :=
  match c with
  | 34 => Some 34 | 92 => Some 92 | 47 => Some 47
  | 98 => Some 8 | 102 => Some 12 | 110 => Some 10
  | 114 => Some 13 | 116 => Some 9
  | _ => None
  end%N.

(** One character: the next mode and the tokens completed by it. *)
Definition lex_step (mode : LexMode) (c : N)
  : option (LexMode * list Token) :=
  match mode with
  | Idle => lex_idle c
  | InWord buf =>
      if is_word_char c then Some (InWord (c :: buf), [])
      else
        match read_word (rev buf), lex_idle c with
        | Some t, Some (mode', ts) => Some (mode', t :: ts)
        | _, _ => None
        end
  | InString buf =>
      if N.eqb c DQUOTE then Some (Idle, [TString (rev buf)])
      else if N.eqb c BACKSLASH then Some (InEscape buf, [])
      else if (c <? 32)%N then None
      else Some (InString (c :: buf), [])
  | InEscape buf =>
      if N.eqb c 117 then Some (InUnicode buf [], [])
      else match unescape c with
           | Some d => Some (InString (d :: buf), [])
           | None => None
           end
  | InUnicode buf hex =>
      match hex_value c with
      | Some h =>
          match hex with
          | [a; b; d] =>
              Some (InString ((((a * 16 + b) * 16 + d) * 16 + h)%N :: buf), [])
          | _ => Some (InUnicode buf (hex ++ [h]), [])
          end
      | None => None
      end
  end.

Fixpoint lex_from (mode : LexMode) (text : JsString) : option (list Token) :=
  match text with
  | [] =>
      match mode with
      | Idle => Some []
      | InWord buf =>
          match read_word (rev buf) with
          | Some t => Some [t]
          | None => None
          end
      | _ => None
      end
  | c :: rest =>
      match lex_step mode c with
      | Some (mode', ts) =>
          match lex_from mode' rest with
          | Some more => Some (ts ++ more)
          | None => None
          end
      | None => None
      end
  end.

Definition lex (text : JsString) : option (list Token) := lex_from Idle text.

(** A container under construction: the elements of an array, last one
    first, or the properties of an object with the key that waits for its
    value. *)
Inductive Frame : Type :=
| FArray (items : list JsValue)
| FObject (props : Props JsValue) (pending : option JsString).

Inductive Phase : Type :=
| PValue          (** a value is due *)
| PValueOrClose   (** just after [[]: a value or []] *)
| PKeyOrClose     (** just after [{]: a key or [}] *)
| PKey            (** after a comma in an object: a key *)
| PColon          (** after a key: the colon *)
| PAfter          (** after a value in a container: a comma or the end *)
| PDone (v : JsValue).

(** A complete value goes to the container on top of the stack, or is the
    result. *)
Definition deliver (v : JsValue) (stack : list Frame)
  : option (list Frame * Phase) :=
  match stack with
  | [] => Some ([], PDone v)
  | FArray items :: below => Some (FArray (v :: items) :: below, PAfter)
  | FObject props (Some k) :: below =>
      Some (FObject (define k v props) None :: below, PAfter)
  | FObject _ None :: _ => None
  end.

Definition close_array (stack : list Frame) : option (list Frame * Phase) :=
  match stack with
  | FArray items :: below => deliver (JArr (rev items)) below
  | _ => None
  end.

Definition close_object (stack : list Frame) : option (list Frame * Phase) :=
  match stack with
  | FObject props None :: below => deliver (JObj props) below
  | _ => None
  end.

Definition expect_key (t : Token) (stack : list Frame)
  : option (list Frame * Phase) :=
  match t, stack with
  | TString k, FObject props None :: below =>
      Some (FObject props (Some k) :: below, PColon)
  | _, _ => None
  end.

Definition expect_value (t : Token) (stack : list Frame)
  : option (list Frame * Phase) :=
  match t with
  | TString s => deliver (JStr s) stack
  | TScalar v => deliver v stack
  | TLBracket => Some (FArray [] :: stack, PValueOrClose)
  | TLBrace => Some (FObject [] None :: stack, PKeyOrClose)
  | _ => None
  end.

Definition parse_step (st : list Frame * Phase) (t : Token)
  : option (list Frame * Phase) :=
  let '(stack, phase) := st in
  match phase with
  | PValue => expect_value t stack
  | PValueOrClose =>
      match t with
      | TRBracket => close_array stack
      | _ => expect_value t stack
      end
  | PKeyOrClose =>
      match t with
      | TRBrace => close_object stack
      | _ => expect_key t stack
      end
  | PKey => expect_key t stack
  | PColon =>
      match t with
      | TColon => Some (stack, PValue)
      | _ => None
      end
  | PAfter =>
      match t, stack with
      | TComma, FArray _ :: _ => Some (stack, PValue)
      | TComma, FObject _ _ :: _ => Some (stack, PKey)
      | TRBracket, _ => close_array stack
      | TRBrace, _ => close_object stack
      | _, _ => None
      end
  | PDone _ => None
  end.

Fixpoint parse_tokens (st : list Frame * Phase) (ts : list Token)
  : option JsValue :=
  match ts with
  | [] =>
      match st with
      | ([], PDone v) => Some v
      | _ => None
      end
  | t :: rest =>
      match parse_step st t with
      | Some st' => parse_tokens st' rest
      | None => None
      end
  end.

(** [JSON.parse(text)], without reviver. *)
Definition JSON_parse (text : JsString) : option JsValue :=
  match lex text with
  | Some ts => parse_tokens ([], PValue) ts
  | None => None
  end.

(** ** Primitive values and JSON.stringify

    The values of the union [string | number | null | boolean]. *)

Inductive Primitive : Type :=
| PString (s : JsString)
| PNumber (n : Number.number)
| PBoolean (b : bool)
| PNull.

(** ToString, as a template literal applies it. *)
Definition ToString (v : Primitive) : JsString :=
  match v with
  | PString s => s
  | PNumber n => Number.toString n
  | PBoolean true => lit "true"
  | PBoolean false => lit "false"
  | PNull => lit "null"
  end.

Definition hex_digit (n : N) : N := (if n <? 10 then 48 + n else 87 + n)%N.

(** The escape [\uXXXX] of a code unit, in lower case. *)
Definition unicode_escape (c : N) : JsString :=
  [BACKSLASH; 117%N; hex_digit (c / 4096); hex_digit ((c / 256) mod 16);
   hex_digit ((c / 16) mod 16); hex_digit (c mod 16)]%N.

Definition is_high_surrogate (c : N) : bool := ((55296 <=? c) && (c <=? 56319))%N.
Definition is_low_surrogate (c : N) : bool := ((56320 <=? c) && (c <=? 57343))%N.

Definition escape_unit (c : N) : JsString :=
  match c with
  | 8 => [BACKSLASH; 98]
  | 9 => [BACKSLASH; 116]
  | 10 => [BACKSLASH; 110]
  | 12 => [BACKSLASH; 102]
  | 13 => [BACKSLASH; 114]
  | 34 => [BACKSLASH; DQUOTE]
  | 92 => [BACKSLASH; BACKSLASH]
  | _ => if c <? 32 then unicode_escape c else [c]
  end%N.

Fixpoint quote_units (s : JsString) : JsString :=
  match s with
  | [] => []
  | c :: rest =>
      if is_high_surrogate c then
        match rest with
        | d :: rest' =>
            if is_low_surrogate d then c :: d :: quote_units rest'
            else unicode_escape c ++ quote_units rest
        | [] => unicode_escape c
        end
      else if is_low_surrogate c then unicode_escape c ++ quote_units rest
      else escape_unit c ++ quote_units rest
  end.

(** QuoteJSONString. *)
Definition quote (s : JsString) : JsString :=
  [DQUOTE] ++ quote_units s ++ [DQUOTE].

(** SerializeJSONProperty on a primitive: a number that is not finite is
    written [null]. *)
Definition serialize_primitive (v : Primitive) : JsString :=
  match v with
  | PString s => quote s
  | PNumber n => if Number.is_finite n then Number.toString n else lit "null"
  | PBoolean true => lit "true"
  | PBoolean false => lit "false"
  | PNull => lit "null"
  end.

Definition NEWLINE : N := 10.

(** [JSON.stringify(obj, null, 2)] for an object whose properties hold
    primitives: SerializeJSONObject with the gap of two spaces. *)
Definition JSON_stringify_2 (props : Props Primitive) : JsString :=
  let indent := lit "  " in
  let member kv := quote (fst kv) ++ lit ": " ++ serialize_primitive (snd kv) in
  match props with
  | [] => lit "{}"
  | _ =>
      lit "{" ++ [NEWLINE] ++ indent
      ++ join (lit "," ++ [NEWLINE] ++ indent) (map member props)
      ++ [NEWLINE] ++ lit "}"
  end.

(** ** Assignment to a property of an object literal

    An object created by [{}]: its own properties, and whether its
    prototype is still [Object.prototype]. *)

Record PlainObject : Type := {
  own : Props Primitive;
  has_Object_prototype : bool
}.

Definition empty_object : PlainObject :=
  {| own := []; has_Object_prototype := true |}.

Definition PROTO : JsString := lit "__proto__".

(** [obj[key] = value] for a primitive [value]. An own property is
    overwritten and a new one created, except for the key [__proto__] while
    the object inherits the accessor of that name from [Object.prototype]
    (ECMA-262, set Object.prototype.__proto__): its setter makes [null] the
    prototype, returns without effect for every other primitive, and
    creates no property. Once the prototype is [null] the accessor is no
    longer inherited, and the key is a key like any other. *)
Definition assign (key : JsString) (v : Primitive) (obj : PlainObject)
  : PlainObject :=
  if str_eqb key PROTO && negb (has_own key (own obj))
     && has_Object_prototype obj
  then
    match v with
    | PNull => {| own := own obj; has_Object_prototype := false |}
    | _ => obj
    end
  else
    {| own := define key v (own obj);
       has_Object_prototype := has_Object_prototype obj |}.

(** ** Completions *)

Inductive Thrown : Type :=
| SyntaxError (text : JsString)
  (** raised by [JSON.parse] on [text] *)
| TypeError (key : JsString)
  (** raised by reading property [key] of [undefined] or [null] *)
| Raised (message : option JsString) (shown : JsString).
  (** a value thrown by a library: its [message] property when it has one,
      and what [String] makes of it *)

Inductive Completion (A : Type) : Type :=
| Normal (a : A)
| Throw (e : Thrown).

Arguments Normal {A} a.
Arguments Throw {A} e.

Definition bind {A B : Type} (c : Completion A) (f : A -> Completion B)
  : Completion B :=
  match c with
  | Normal a => f a
  | Throw e => Throw e
  end.

End Js.

Import Js.

Notation "x <- c ;; k" := (bind c (fun x => k))
  (at level 61, c at next level, right associativity).

(* ===================================================================== *)
(** * Part 2: the component                                              *)
(* ===================================================================== *)

(** ** The graph types ([types/graph]) *)

Module Graph.

(** Modelled from the spec: the declarations of [NodeData] and of its rows
    are imported from [types/graph] and are not part of the source at hand.
    A row has a key or [null], a primitive value and the kind of JSON node
    it stands for; a node has an id, its rows and, optionally, its path. *)
Inductive NodeType : Type :=
| t_object | t_array | t_property | t_string | t_number | t_boolean | t_null.
  (** the strings "object", "array", "property", "string", "number",
      "boolean" and "null" *)

Record NodeRow : Type := {
  key : option JsString;
  value : Primitive;
  type : NodeType
}.

(** A segment of a JSON path: a property name or an array index. *)
Inductive Segment : Type :=
| Name (s : JsString)
| Index (n : Number.number).

Definition JSONPath : Type := list Segment.

Record NodeData : Type := {
  id : JsString;
  text : list NodeRow;
  path : option JSONPath
}.

End Graph.

(** ** normalizeNodeData (lines 36 to 47) *)

(** [!row.key]: a key is truthy when it is a string that is not empty. *)
Definition truthy_key (k : option JsString) : bool :=
  match k with
  | Some s => str_truthy s
  | None => false
  end.

(** The body of the [forEach] callback, lines 42 to 44. *)
Definition collect_row (obj : PlainObject) (row : Graph.NodeRow)
  : PlainObject :=
  match Graph.type row with
  | Graph.t_array | Graph.t_object => obj
  | _ =>
      match Graph.key row with
      | Some k => if str_truthy k then assign k (Graph.value row) obj else obj
      | None => obj
      end
  end.

(** [nodeRows] is [None] when the argument is missing. *)
Definition normalizeNodeData (nodeRows : option (list Graph.NodeRow))
  : JsString :=
  match nodeRows with
  | None | Some [] => lit "{}"
  | Some ((row0 :: _) as rows) =>
      if Nat.eqb (List.length rows) 1 && negb (truthy_key (Graph.key row0))
      then ToString (Graph.value row0)
      else
        let obj := fold_left collect_row rows empty_object in
        JSON_stringify_2 (own obj)
  end.

(** ** jsonPathToString (lines 50 to 54) *)

(** An element of [segments]: a number, or a string. *)
Definition path_segment (seg : Graph.Segment) : Graph.Segment :=
  match seg with
  | Graph.Index n => Graph.Index n
  | Graph.Name s => Graph.Name ([DQUOTE] ++ s ++ [DQUOTE])
  end.

(** The string [join] makes of an element. *)
Definition segment_string (seg : Graph.Segment) : JsString :=
  match seg with
  | Graph.Index n => Number.toString n
  | Graph.Name s => s
  end.

Definition jsonPathToString (path : option Graph.JSONPath) : JsString :=
  match path with
  | None | Some [] => lit "$"
  | Some p =>
      let segments := map path_segment p in
      lit "$[" ++ join (lit "][") (map segment_string segments) ++ lit "]"
  end.

(** ** The text-to-JSON coercion of handleSave (lines 95 to 106) *)

(** [/^[-0-9.]+$/.test(t)]: at least one character, each a minus sign, a
    digit or a dot. *)
Definition numeric_like (t : JsString) : bool :=
  match t with
  | [] => false
  | _ => forallb (fun c => N.eqb c 45 || is_digit c || N.eqb c 46) t
  end.

(** The [replace] of line 104, whose pattern matches a double quote at the
    start of the text and one at its end, every match being replaced by
    nothing: a double quote at the start is removed, and one at the end of
    what follows it. *)
Definition strip_quotes (t : JsString) : JsString :=
  let t1 := match t with
            | c :: rest => if N.eqb c DQUOTE then rest else t
            | [] => t
            end in
  match rev t1 with
  | c :: front => if N.eqb c DQUOTE then rev front else t1
  | [] => t1
  end.

(** The condition of line 101. *)
Definition looks_like_literal (trimmed : JsString) : bool :=
  numeric_like trimmed || str_eqb trimmed (lit "null")
  || str_eqb trimmed (lit "true") || str_eqb trimmed (lit "false").

Definition editedValue (value : JsString) : Completion JsValue :=
  match JSON_parse value with
  | Some v => Normal v
  | None =>
      let trimmed := trim value in
      if looks_like_literal trimmed then
        match JSON_parse trimmed with
        | Some v => Normal v
        | None => Throw (SyntaxError trimmed)
        end
      else Normal (JStr (strip_quotes trimmed))
  end.

(** ** What the component takes from outside *)

(** The patching library, the parts of the runtime that are defined by the
    engine, and the graph builder behind [setGraph].

    [parse], [modify] and [applyEdits] are the functions imported from
    [jsonc-parser]; [Edits] is what [modify] returns. [lookup_beyond] reads
    a property that is not one of the own properties modelled here (an
    inherited one, or a property of a value that is no JSON data).
    [host_properties] lists the own enumerable properties of such a value.
    [error_message] is the message the engine gives an error it raises.
    The two arguments of [modify] after the value are the formatting
    options [insertSpaces] and [tabSize]. [graph_of] is the list of nodes
    [setGraph] builds from a text. *)
Class Environment : Type := {
  Edits : Type;
  parse : JsString -> Completion JsValue;
  modify : JsString -> Graph.JSONPath -> JsValue -> bool -> N
           -> Completion Edits;
  applyEdits : JsString -> Edits -> Completion JsString;
  lookup_beyond : JsValue -> JsString -> Completion JsValue;
  host_properties : N -> Props JsValue;
  error_message : Thrown -> JsString;
  graph_of : JsString -> list Graph.NodeData
}.

Section Component.
Context {env : Environment}.

(** ** getValueAtPath (lines 22 to 33) *)

(** ToPropertyKey of a path segment. *)
Definition property_key (segment : Graph.Segment) : JsString :=
  match segment with
  | Graph.Name s => s
  | Graph.Index n => Number.toString n
  end.

(** [current[segment]]. *)
Definition get (current : JsValue) (segment : Graph.Segment)
  : Completion JsValue :=
  let k := property_key segment in
  match current with
  | JUndefined | JNull => Throw (TypeError k)
  | JObj props =>
      match lookup k props with
      | Some v => Normal v
      | None => lookup_beyond current k
      end
  | JArr items =>
      match array_index k with
      | Some i =>
          match nth_error items (Z.to_nat i) with
          | Some v => Normal v
          | None => lookup_beyond current k
          end
      | None =>
          if str_eqb k (lit "length")
          then Normal (JNum (Number.of_nat (List.length items)))
          else lookup_beyond current k
      end
  | JStr s =>
      match array_index k with
      | Some i =>
          match nth_error s (Z.to_nat i) with
          | Some c => Normal (JStr [c])
          | None => lookup_beyond current k
          end
      | None =>
          if str_eqb k (lit "length")
          then Normal (JNum (Number.of_nat (List.length s)))
          else lookup_beyond current k
      end
  | JBool _ | JNum _ | JHost _ _ _ => lookup_beyond current k
  end.

(** The loop of lines 26 to 28. *)
Fixpoint walk (current : JsValue) (path : Graph.JSONPath)
  : Completion JsValue :=
  match path with
  | [] => Normal current
  | segment :: rest => next <- get current segment ;; walk next rest
  end.

(** The body of the [try] block. *)
Definition value_at (json : JsString) (path : Graph.JSONPath)
  : Completion JsValue :=
  parsed <- parse json ;; walk parsed path.

Definition getValueAtPath (json : JsString) (path : Graph.JSONPath)
  : JsValue :=
  match value_at json path with
  | Normal current => current
  | Throw _ => JNull
  end.

(** ** The merge of handleSave (lines 110 to 117) *)

(** The own enumerable properties of a value for which
    [typeof v === "object" && v !== null && !Array.isArray(v)] holds. *)
Definition object_properties (v : JsValue) : option (Props JsValue) :=
  match v with
  | JObj props => Some props
  | JHost true false h => Some (host_properties h)
  | _ => None
  end.

Definition valueToSet (originalValue edited : JsValue) : JsValue :=
  match object_properties originalValue, object_properties edited with
  | Some o, Some e => JObj (spread2 o e)
  | _, _ => edited
  end.

(** ** The stores *)

Record Stores : Type := {
  contents : JsString;
  hasChanges : bool;
  json : JsString;
  nodes : list Graph.NodeData;
  selectedNode : option Graph.NodeData
}.

(** Modelled from the spec: [useFile] is not part of the source at hand;
    [setContents] records the text and the flag it is given. *)
Definition setContents (c : JsString) (changed : bool) (s : Stores) : Stores :=
  {| contents := c; hasChanges := changed; json := json s;
     nodes := nodes s; selectedNode := selectedNode s |}.

(** Modelled from the spec: [useJson] is not part of the source at hand;
    [getJson] reads the text of the JSON store and [setJson] replaces it. *)
Definition getJson (s : Stores) : JsString := json s.

Definition setJson (j : JsString) (s : Stores) : Stores :=
  {| contents := contents s; hasChanges := hasChanges s; json := j;
     nodes := nodes s; selectedNode := selectedNode s |}.

(** Modelled from the spec: [useGraph] is not part of the source at hand;
    [setGraph] rebuilds the nodes from the text it is given and
    [setSelectedNode] records the selection. *)
Definition setGraph (j : JsString) (s : Stores) : Stores :=
  {| contents := contents s; hasChanges := hasChanges s; json := json s;
     nodes := graph_of j; selectedNode := selectedNode s |}.

Definition setSelectedNode (n : Graph.NodeData) (s : Stores) : Stores :=
  {| contents := contents s; hasChanges := hasChanges s; json := json s;
     nodes := nodes s; selectedNode := Some n |}.

(** ** The state of the component *)

Record ModalState : Type := {
  isEditing : bool;
  value : JsString;
  error : option JsString
}.

(** A callback handed to [setTimeout], with its delay in milliseconds. *)
Inductive Callback : Type :=
| Reselect (nodeIdToUpdate : JsString).

Record Timer : Type := {
  delay : N;
  callback : Callback
}.

Record World : Type := {
  state : ModalState;
  stores : Stores;
  timers : list Timer;
  opened : bool;
  closeRequests : nat   (** how often [onClose] was called *)
}.

(** [nodeData?.text ?? []]. *)
Definition rows_of (nodeData : option Graph.NodeData)
  : option (list Graph.NodeRow) :=
  match nodeData with
  | Some n => Some (Graph.text n)
  | None => Some []
  end.

(** What the three state setters of lines 68 to 70 and 78 to 80 leave;
    it is also the state the component is mounted with (lines 63 to 65). *)
Definition reset (nodeData : option Graph.NodeData) : ModalState :=
  {| isEditing := false;
     value := normalizeNodeData (rows_of nodeData);
     error := None |}.

Definition with_state (w : World) (st : ModalState) : World :=
  {| state := st; stores := stores w; timers := timers w;
     opened := opened w; closeRequests := closeRequests w |}.

(** The component as it is mounted (lines 56 to 71), with no timer
    pending. *)
Definition NodeModal (is_open : bool) (s : Stores) : World :=
  {| state := reset (selectedNode s); stores := s; timers := [];
     opened := is_open; closeRequests := 0 |}.

(** ** handleEdit and handleCancel (lines 73 to 81) *)

Definition handleEdit (w : World) : World :=
  with_state w {| isEditing := true; value := value (state w);
                  error := error (state w) |}.

Definition handleCancel (w : World) : World :=
  with_state w (reset (selectedNode (stores w))).

(** ** handleSave (lines 83 to 148) *)

(** [err?.message || String(err)]. *)
Definition message_of (err : Thrown) : JsString :=
  match err with
  | Raised (Some m) shown => if str_truthy m then m else shown
  | Raised None shown => shown
  | SyntaxError _ =>
      if str_truthy (error_message err) then error_message err
      else lit "SyntaxError"
  | TypeError _ =>
      if str_truthy (error_message err) then error_message err
      else lit "TypeError"
  end.

(** [nodeData.path ?? []]. *)
Definition path_of (nodeData : Graph.NodeData) : Graph.JSONPath :=
  match Graph.path nodeData with
  | Some p => p
  | None => []
  end.

(** Lines 87 to 124: the text of the document after the edit. *)
Definition newJson (nodeData : Graph.NodeData) (text : JsString)
  (s : Stores) : Completion JsString :=
  let original := getJson s in
  let path := path_of nodeData in
  let originalValue := getValueAtPath original path in
  edited <- editedValue text ;;
  edits <- modify original path (valueToSet originalValue edited) true 2 ;;
  applyEdits original edits.

(** Lines 127 to 131. *)
Definition update_stores (j : JsString) (s : Stores) : Stores :=
  setGraph j (setJson j (setContents j true s)).

(** The callback of lines 134 to 140, run on the stores as they are when
    the timer fires. *)
Definition run_callback (c : Callback) (s : Stores) : Stores :=
  match c with
  | Reselect nodeIdToUpdate =>
      match find (fun n => str_eqb (Graph.id n) nodeIdToUpdate) (nodes s) with
      | Some updatedNode => setSelectedNode updatedNode s
      | None => s
      end
  end.

Definition handleSave (w : World) : World :=
  match selectedNode (stores w) with
  | None => w
  | Some nodeData =>
      match newJson nodeData (value (state w)) (stores w) with
      | Normal j =>
          {| state := {| isEditing := false;
                         value := value (state w);
                         error := None |};
             stores := update_stores j (stores w);
             timers := timers w
                       ++ [{| delay := 50;
                              callback := Reselect (Graph.id nodeData) |}];
             opened := opened w;
             closeRequests := closeRequests w |}
      | Throw err =>
          with_state w {| isEditing := isEditing (state w);
                          value := value (state w);
                          error := Some (message_of err) |}
      end
  end.

(** ** The component as a transition system *)

Inductive Event : Type :=
| ClickEdit
| ClickCancel
| ClickSave
| ChangeText (t : JsString)   (** [onChange] of the text area *)
| ClickClose                  (** the close button: [onClose] is called *)
| SetOpened (o : bool)        (** the parent sets the [opened] property *)
| TimerElapsed.               (** the oldest pending timer fires *)

(** The effect of lines 67 to 71, which runs when one of its dependencies
    [nodeData?.id] and [opened] changed. *)
Definition effect (w : World) : World :=
  with_state w (reset (selectedNode (stores w))).

(** [nodeData?.id]. *)
Definition selected_id (s : Stores) : option JsString :=
  option_map Graph.id (selectedNode s).

Definition same_id (a b : option JsString) : bool :=
  match a, b with
  | Some x, Some y => str_eqb x y
  | None, None => true
  | _, _ => false
  end.

Definition step (ev : Event) (w : World) : World :=
  match ev with
  | ClickEdit => handleEdit w
  | ClickCancel => handleCancel w
  | ClickSave => handleSave w
  | ChangeText t =>
      with_state w {| isEditing := isEditing (state w); value := t;
                      error := error (state w) |}
  | ClickClose =>
      {| state := state w; stores := stores w; timers := timers w;
         opened := opened w; closeRequests := S (closeRequests w) |}
  | SetOpened o =>
      if Bool.eqb o (opened w) then w
      else effect {| state := state w; stores := stores w; timers := timers w;
                     opened := o; closeRequests := closeRequests w |}
  | TimerElapsed =>
      match timers w with
      | [] => w
      | t :: rest =>
          let w' :=
            {| state := state w;
               stores := run_callback (callback t) (stores w);
               timers := rest; opened := opened w;
               closeRequests := closeRequests w |} in
          if same_id (selected_id (stores w')) (selected_id (stores w))
          then w' else effect w'
      end
  end.

(** The document as the file store, the JSON store and the graph hold
    it. *)
Definition document (s : Stores)
  : JsString * bool * JsString * list Graph.NodeData :=
  (contents s, hasChanges s, json s, nodes s).

(** What the modal shows under "Content" (lines 168 to 198). *)
Definition displayed (w : World) : JsString :=
  if isEditing (state w) then value (state w)
  else normalizeNodeData (rows_of (selectedNode (stores w))).

End Component.

(** ** The formats in the words of the specification *)

(** The elements, with the separator between each two of them. *)
Fixpoint separated (sep : JsString) (elements : list JsString) : JsString :=
  match elements with
  | [] => []
  | [e] => e
  | e :: rest => e ++ sep ++ separated sep rest
  end.

(** A numeric segment appears bare, a string segment in double quotes. *)
Definition written_segment (seg : Graph.Segment) : JsString :=
  match seg with
  | Graph.Index n => Number.toString n
  | Graph.Name s => [DQUOTE] ++ s ++ [DQUOTE]
  end.

(** A row makes it into the object when its type is neither "array" nor
    "object" and its key is truthy; it gives its key the value it has. *)
Definition kept_row (row : Graph.NodeRow) : option (JsString * Primitive) :=
  match Graph.type row, Graph.key row with
  | (Graph.t_array | Graph.t_object), _ => None
  | _, Some k => if str_truthy k then Some (k, Graph.value row) else None
  | _, None => None
  end.

Fixpoint kept_rows (rows : list Graph.NodeRow) : Props Primitive :=
  match rows with
  | [] => []
  | row :: rest =>
      match kept_row row with
      | Some kv => kv :: kept_rows rest
      | None => kept_rows rest
      end
  end.

(** The last value the kept rows give a key. *)
Definition row_value (k : JsString) (rows : list Graph.NodeRow)
  : option Primitive :=
  lookup k (rev (kept_rows rows)).

(** The rows of the failing input of claim C5: a string row under the key
    [__proto__] and a number row under the key [a]. *)
Definition proto_rows : list Graph.NodeRow :=
  [{| Graph.key := Some PROTO; Graph.value := PString (lit "x");
      Graph.type := Graph.t_string |};
   {| Graph.key := Some (lit "a"); Graph.value := PNumber (Number.of_nat 1);
      Graph.type := Graph.t_number |}].

(** ** An environment to run the component in

    The properties below hold in every environment. To evaluate the
    component on concrete documents, this one takes [JSON.parse] for the
    parser, replaces a whole document by the compact text of the new value,
    refuses every path but the empty one, finds no inherited property, and
    builds a graph of one node from a document that is an object. *)

Fixpoint render (v : JsValue) : JsString :=
  match v with
  | JUndefined | JNull | JHost _ _ _ => lit "null"
  | JBool b => serialize_primitive (PBoolean b)
  | JNum n => serialize_primitive (PNumber n)
  | JStr s => quote s
  | JArr items => lit "[" ++ join (lit ",") (map render items) ++ lit "]"
  | JObj props =>
      lit "{"
      ++ join (lit ",")
           (map (fun kv => quote (fst kv) ++ lit ":" ++ render (snd kv)) props)
      ++ lit "}"
  end.

Definition sample_row (kv : JsString * JsValue) : Graph.NodeRow :=
  match snd kv with
  | JStr s =>
      {| Graph.key := Some (fst kv); Graph.value := PString s;
         Graph.type := Graph.t_string |}
  | JNum n =>
      {| Graph.key := Some (fst kv); Graph.value := PNumber n;
         Graph.type := Graph.t_number |}
  | JBool b =>
      {| Graph.key := Some (fst kv); Graph.value := PBoolean b;
         Graph.type := Graph.t_boolean |}
  | JArr _ =>
      {| Graph.key := Some (fst kv); Graph.value := PNull;
         Graph.type := Graph.t_array |}
  | JObj _ =>
      {| Graph.key := Some (fst kv); Graph.value := PNull;
         Graph.type := Graph.t_object |}
  | _ =>
      {| Graph.key := Some (fst kv); Graph.value := PNull;
         Graph.type := Graph.t_null |}
  end.

Definition sample_graph (text : JsString) : list Graph.NodeData :=
  match JSON_parse text with
  | Some (JObj props) =>
      [{| Graph.id := lit "1"; Graph.text := map sample_row props;
          Graph.path := Some [] |}]
  | _ => []
  end.

Definition sample_environment : Environment :=
  {| Edits := JsString;
     parse := fun text =>
       match JSON_parse text with
       | Some v => Normal v
       | None => Normal JUndefined
       end;
     modify := fun _ path v _ _ =>
       match path with
       | [] => Normal (render v)
       | _ => Throw (Raised (Some (lit "unsupported path"))
                       (lit "Error: unsupported path"))
       end;
     applyEdits := fun _ edits => Normal edits;
     lookup_beyond := fun _ _ => Normal JUndefined;
     host_properties := fun _ => [];
     error_message := fun _ => lit "Unexpected token";
     graph_of := sample_graph |}.

(** The document [{"a":1,"b":[2],"c":"x"}], its root node selected, and
    the modal in edit mode with the text [{"a":5}]. *)
Definition sample_document : JsString :=
  lit "{" ++ quote (lit "a") ++ lit ":1," ++ quote (lit "b") ++ lit ":[2],"
  ++ quote (lit "c") ++ lit ":" ++ quote (lit "x") ++ lit "}".

Definition sample_stores : Stores :=
  {| contents := sample_document; hasChanges := false;
     json := sample_document; nodes := sample_graph sample_document;
     selectedNode := hd_error (sample_graph sample_document) |}.

Definition sample_world (text : JsString) : World :=
  {| state := {| isEditing := true; value := text; error := None |};
     stores := sample_stores; timers := []; opened := true;
     closeRequests := 0 |}.

Definition sample_edit : JsString := lit "{" ++ quote (lit "a") ++ lit ":5}".

(** The root node of the sample document, and the text the sample
    environment makes of the document after the edit. *)
Definition sample_node : Graph.NodeData :=
  {| Graph.id := lit "1";
     Graph.text :=
       [{| Graph.key := Some (lit "a");
           Graph.value := PNumber (Number.of_nat 1);
           Graph.type := Graph.t_number |};
        {| Graph.key := Some (lit "b"); Graph.value := PNull;
           Graph.type := Graph.t_array |};
        {| Graph.key := Some (lit "c"); Graph.value := PString (lit "x");
           Graph.type := Graph.t_string |}];
     Graph.path := Some [] |}.

Definition sample_result : JsString :=
  lit "{" ++ quote (lit "a") ++ lit ":5," ++ quote (lit "b") ++ lit ":[2],"
  ++ quote (lit "c") ++ lit ":" ++ quote (lit "x") ++ lit "}".

(** The fields of a text that is an object. *)
Definition fields_of (text : JsString) : Props JsValue :=
  match JSON_parse text with
  | Some (JObj props) => props
  | _ => []
  end.

(** ** Indexing in the words of the specification *)

(** The value reached from a value by indexing it with the segments of a
    path in order: a segment reads the own property of an object under the
    key of the segment, or the element of an array at the index the key of
    the segment denotes. *)
Inductive reaches : JsValue -> Graph.JSONPath -> JsValue -> Prop :=
| reaches_here v : reaches v [] v
| reaches_property props segment rest child v :
    lookup (property_key segment) props = Some child ->
    reaches child rest v ->
    reaches (JObj props) (segment :: rest) v
| reaches_element items segment rest i child v :
    array_index (property_key segment) = Some i ->
    nth_error items (Z.to_nat i) = Some child ->
    reaches child rest v ->
    reaches (JArr items) (segment :: rest) v.

(** ** Notions used to state further properties *)

(** The group a segment contributes to the path string. *)
Definition bracket_group (seg : Graph.Segment) : JsString :=
  lit "[" ++ written_segment seg ++ lit "]".

(** The keys of an object, in order. *)
Definition keys {V : Type} (p : Props V) : list JsString := map fst p.

(** The file store and the graph agree with the JSON store. *)
Definition in_sync {env : Environment} (s : Stores) : Prop :=
  contents s = json s /\ nodes s = graph_of (json s).

(** The events the rendered modal offers (lines 159 to 198): the Edit
    button is rendered outside edit mode only, and the text area with the
    Save and Cancel buttons in edit mode only. *)
Definition enabled (ev : Event) (w : World) : bool :=
  match ev with
  | ClickEdit => negb (isEditing (state w))
  | ClickCancel | ClickSave | ChangeText _ => isEditing (state w)
  | ClickClose | SetOpened _ | TimerElapsed => true
  end.

(** The worlds the component gets to from its mounting. *)
Inductive reachable {env : Environment} (is_open : bool) (s0 : Stores)
  : World -> Prop :=
| reach_mount : reachable is_open s0 (NodeModal is_open s0)
| reach_step ev w :
    reachable is_open s0 w -> enabled ev w = true ->
    reachable is_open s0 (step ev w).

(** The events in order, the first one first. *)
Definition run {env : Environment} (evs : list Event) (w : World) : World :=
  fold_left (fun w ev => step ev w) evs w.

(** Events that only touch the state of the modal. *)
Definition local_event (ev : Event) : bool :=
  match ev with
  | ClickEdit | ClickCancel | ChangeText _ => true
  | _ => false
  end.

(** A value that is JSON data at its top: neither [undefined] nor an object
    of the runtime. *)
Definition is_json_data (v : JsValue) : bool :=
  match v with
  | JUndefined | JHost _ _ _ => false
  | _ => true
  end.

(** A row without a key that holds the string [s]. *)
Definition keyless_string_row (s : JsString) : Graph.NodeRow :=
  {| Graph.key := None; Graph.value := PString s;
     Graph.type := Graph.t_string |}.

(** A token that carries JSON data. *)
Definition token_is_data (t : Token) : bool :=
  match t with
  | TScalar v => is_json_data v
  | _ => true
  end.

(** The value a parse is about to return, if it has one already. *)
Definition pending_is_data (st : list Frame * Phase) : bool :=
  match snd st with
  | PDone v => is_json_data v
  | _ => true
  end.

Definition is_container (v : JsValue) : bool :=
  match v with
  | JArr _ | JObj _ => true
  | _ => false
  end.

(** A parse that is inside a container, or has returned one. *)
Definition inside (st : list Frame * Phase) : bool :=
  match st with
  | (_ :: _, _) => true
  | ([], PDone v) => is_container v
  | ([], _) => false
  end.

(** What [JSON.parse] reads from the text [JSON.stringify] writes for a
    primitive: the primitive itself, but [null] for a number that is not
    finite. *)
Definition as_json (v : Primitive) : JsValue :=
  match v with
  | PString s => JStr s
  | PNumber n => if Number.is_finite n then JNum n else JNull
  | PBoolean b => JBool b
  | PNull => JNull
  end.

(** The decimal form of a finite number reads back as the number. *)
Definition reads_back (v : Primitive) : Prop :=
  match v with
  | PNumber n =>
      Number.is_finite n = true ->
      JSON_parse (Number.toString n) = Some (JNum n)
  | _ => True
  end.

(** The text and the tokens of a member of a serialized object, and of the
    members after the first. *)
Definition value_token (v : Primitive) : Token :=
  match v with
  | PString s => TString s
  | _ => TScalar (as_json v)
  end.

Definition member_text (kv : JsString * Primitive) : JsString :=
  quote (fst kv) ++ lit ": " ++ serialize_primitive (snd kv).

Definition member_tokens (kv : JsString * Primitive) : list Token :=
  [TString (fst kv); TColon; value_token (snd kv)].

Definition more_tokens (ms : Props Primitive) : list Token :=
  flat_map (fun kv => TComma :: member_tokens kv) ms.

Definition separator : JsString := lit "," ++ [NEWLINE] ++ lit "  ".

(** The object [JSON.parse] builds from members read in order. *)
Definition rebuilt (props : Props Primitive) (acc : Props JsValue)
  : Props JsValue :=
  fold_left (fun acc kv => define (fst kv) (as_json (snd kv)) acc) props acc.

(** A string that neither starts nor ends with white space or a double
    quote. *)
Definition plain_ends (s : JsString) : bool :=
  match s, rev s with
  | c :: _, d :: _ =>
      negb (is_trim_space c) && negb (N.eqb c DQUOTE)
      && negb (is_trim_space d) && negb (N.eqb d DQUOTE)
  | _, _ => true
  end.

(** Splits a conjunction into all its parts. *)
Ltac split_all := repeat match goal with |- _ /\ _ => split end.

(* ===================================================================== *)
(** * Part 3: properties                                                 *)
(* ===================================================================== *)

(** ** The runtime on examples *)

(** [JSON.parse]: scalars, white space around a value, a key given twice
    keeps its place and takes the later value, and array indices come
    first among the keys. *)
Example JSON_parse_examples :
  JSON_parse (lit " [true, null, [], {}] ")
    = Some (JArr [JBool true; JNull; JArr []; JObj []])
  /\ JSON_parse (lit "{" ++ quote (lit "b") ++ lit ":true," ++ quote (lit "1")
                 ++ lit ":null," ++ quote (lit "b") ++ lit ":false}")
     = Some (JObj [(lit "1", JNull); (lit "b", JBool false)])
  /\ JSON_parse (lit "{" ++ quote PROTO ++ lit ":null}")
     = Some (JObj [(PROTO, JNull)])
  /\ JSON_parse (quote (lit "a") ) = Some (JStr (lit "a"))
  /\ JSON_parse (lit "-0") = Some (JNum (S754_zero true)).
Proof. split_all; reflexivity. Qed.

(** [JSON.parse] raises on the empty text, on a trailing comma, on a number
    with a leading zero, without digits after the dot or before it, on two
    values, and on white space other than that of JSON. *)
Example JSON_parse_rejects :
  JSON_parse [] = None
  /\ JSON_parse (lit "[1,]") = None
  /\ JSON_parse (lit "01") = None
  /\ JSON_parse (lit "1.") = None
  /\ JSON_parse (lit ".5") = None
  /\ JSON_parse (lit "-") = None
  /\ JSON_parse (lit "2024-01-15") = None
  /\ JSON_parse (lit "1 2") = None
  /\ JSON_parse (11%N :: lit "1") = None.
Proof. split_all; reflexivity. Qed.

(** Number::toString on the numbers read from some literals. *)
Example Number_toString_examples :
  option_map Number.toString (read_number (lit "25")) = Some (lit "25")
  /\ option_map Number.toString (read_number (lit "2.50e1")) = Some (lit "25")
  /\ option_map Number.toString (read_number (lit "0.1")) = Some (lit "0.1")
  /\ option_map Number.toString (read_number (lit "-12.5")) = Some (lit "-12.5")
  /\ option_map Number.toString (read_number (lit "1e21")) = Some (lit "1e+21")
  /\ option_map Number.toString (read_number (lit "0.0000001"))
     = Some (lit "1e-7")
  /\ option_map Number.toString (read_number (lit "12345678901234567890"))
     = Some (lit "12345678901234567000").
Proof. split_all; vm_compute; reflexivity. Qed.

(** ** Own properties *)

Section PropertyFacts.
Context {V : Type}.
Implicit Types (k : JsString) (v : V) (p : Props V).

Lemma lookup_app k p q :
  lookup k (p ++ q) =
  match lookup k p with Some v => Some v | None => lookup k q end.
Proof.
  induction p as [|[k' v'] p IH]; simpl; [reflexivity|].
  destruct (str_eq_dec k k'); [reflexivity | exact IH].
Qed.

Lemma lookup_overwrite k k' v p :
  lookup k (overwrite k' v p) =
  if str_eq_dec k k'
  then match lookup k p with Some _ => Some v | None => None end
  else lookup k p.
Proof.
  induction p as [|[k0 v0] p IH]; simpl.
  - destruct (str_eq_dec k k'); reflexivity.
  - destruct (str_eq_dec k' k0) as [E|NE]; simpl.
    + subst k0. destruct (str_eq_dec k k'); reflexivity.
    + destruct (str_eq_dec k k0) as [E0|NE0].
      * subst k0. destruct (str_eq_dec k k'); [congruence | reflexivity].
      * exact IH.
Qed.

Lemma lookup_insert_index k k' i v p :
  lookup k' p = None ->
  lookup k (insert_index i k' v p) =
  if str_eq_dec k k' then Some v else lookup k p.
Proof.
  induction p as [|[k0 v0] p IH]; simpl; intros Hnone.
  - destruct (str_eq_dec k k'); reflexivity.
  - destruct (str_eq_dec k' k0) as [E|NE]; [discriminate|].
    assert (Hhead :
      lookup k ((k', v) :: (k0, v0) :: p) =
      if str_eq_dec k k' then Some v
      else if str_eq_dec k k0 then Some v0 else lookup k p).
    { simpl. reflexivity. }
    destruct (array_index k0) as [j|]; [destruct (j <? i)|]; try exact Hhead.
    simpl. destruct (str_eq_dec k k0) as [E0|NE0].
    + subst k0. destruct (str_eq_dec k k'); [congruence | reflexivity].
    + apply IH, Hnone.
Qed.

(** Defining a property changes what is read under its key, and nothing
    else. *)
Lemma lookup_define k k' v p :
  lookup k (define k' v p) = if str_eq_dec k k' then Some v else lookup k p.
Proof.
  unfold define, has_own.
  destruct (lookup k' p) as [old|] eqn:Hold.
  - rewrite lookup_overwrite. destruct (str_eq_dec k k'); [|reflexivity].
    subst k'. rewrite Hold. reflexivity.
  - destruct (array_index k') as [i|].
    + apply lookup_insert_index, Hold.
    + rewrite lookup_app. simpl.
      destruct (str_eq_dec k k') as [E|NE].
      * subst k'. rewrite Hold. reflexivity.
      * destruct (lookup k p); reflexivity.
Qed.

Lemma lookup_in_keys k v p : lookup k p = Some v -> In k (map fst p).
Proof.
  induction p as [|[k0 v0] p IH]; simpl; [discriminate|].
  destruct (str_eq_dec k k0); [left; congruence | right; auto].
Qed.

Lemma lookup_copy_keys (source : Props V) k ks : forall target,
  lookup k (fold_left (copy_property source) ks target) =
  match (if in_dec str_eq_dec k ks then lookup k source else None) with
  | Some v => Some v
  | None => lookup k target
  end.
Proof.
  induction ks as [|a ks IH]; intros target; [reflexivity|].
  cbn [fold_left]. rewrite IH.
  assert (Hstep :
    lookup k (copy_property source target a) =
    if str_eq_dec k a
    then match lookup k source with Some v => Some v | None => lookup k target end
    else lookup k target).
  { unfold copy_property.
    destruct (str_eq_dec k a) as [E|NE].
    - subst a. destruct (lookup k source); [|reflexivity].
      rewrite lookup_define. destruct (str_eq_dec k k); congruence.
    - destruct (lookup a source); [|reflexivity].
      rewrite lookup_define. destruct (str_eq_dec k a); congruence. }
  rewrite Hstep.
  destruct (in_dec str_eq_dec k ks) as [Hin|Hout];
    destruct (in_dec str_eq_dec k (a :: ks)) as [Hin'|Hout'];
    destruct (str_eq_dec k a) as [E|NE]; subst;
    try reflexivity;
    try (exfalso; apply Hout'; simpl; auto; fail);
    try (destruct (lookup k source); reflexivity).
  - destruct (lookup a source); reflexivity.
  - destruct Hin' as [E|Hin']; [congruence | contradiction].
Qed.

(** What is read from a target after the properties of a source were
    copied onto it. *)
Lemma lookup_copy_properties k (target source : Props V) :
  lookup k (copy_properties target source) =
  match lookup k source with Some v => Some v | None => lookup k target end.
Proof.
  unfold copy_properties. rewrite lookup_copy_keys.
  destruct (in_dec str_eq_dec k (map fst source)) as [Hin|Hout].
  - reflexivity.
  - destruct (lookup k source) as [v|] eqn:E; [|reflexivity].
    exfalso. apply Hout. eapply lookup_in_keys, E.
Qed.

(** The fields of [{ ...a, ...b }]: those of [b], and those of [a] that
    [b] does not have. *)
Lemma lookup_spread2 k (a b : Props V) :
  lookup k (spread2 a b) =
  match lookup k b with Some v => Some v | None => lookup k a end.
Proof.
  unfold spread2. rewrite !lookup_copy_properties. simpl.
  destruct (lookup k b); [reflexivity|]. destruct (lookup k a); reflexivity.
Qed.

End PropertyFacts.

(** ** jsonPathToString *)

Lemma join_from_started sep R elements :
  join_from sep true R elements = R ++ List.concat (map (app sep) elements).
Proof.
  revert R. induction elements as [|e rest IH]; intros R; simpl.
  - rewrite app_nil_r. reflexivity.
  - rewrite IH, <- !app_assoc. reflexivity.
Qed.

Lemma separated_cons sep e rest :
  separated sep (e :: rest) = e ++ List.concat (map (app sep) rest).
Proof.
  revert e. induction rest as [|e' rest IH]; intros e.
  - simpl. rewrite app_nil_r. reflexivity.
  - change (separated sep (e :: e' :: rest))
      with (e ++ sep ++ separated sep (e' :: rest)).
    rewrite IH. simpl. rewrite <- app_assoc. reflexivity.
Qed.

(** [join] puts the separator between each two elements. *)
Lemma join_separated sep elements : join sep elements = separated sep elements.
Proof.
  destruct elements as [|e rest]; [reflexivity|].
  unfold join. cbn [join_from]. rewrite join_from_started, separated_cons.
  reflexivity.
Qed.

Lemma written_segments p :
  map segment_string (map path_segment p) = map written_segment p.
Proof.
  rewrite map_map. apply map_ext. intros [s|n]; reflexivity.
Qed.

(** Claim C6. [jsonPathToString] returns [$] for a missing or an empty
    path, and otherwise [$[] followed by the segments separated by [][] and
    by []], a numeric segment bare and a string segment in double quotes;
    the path of the one string segment [customer] gives [$["customer"]]. *)
Theorem jsonPathToString_format :
  jsonPathToString None = lit "$"
  /\ jsonPathToString (Some []) = lit "$"
  /\ (forall seg rest,
        jsonPathToString (Some (seg :: rest)) =
        lit "$[" ++ separated (lit "][") (map written_segment (seg :: rest))
        ++ lit "]")
  /\ jsonPathToString (Some [Graph.Name (lit "customer")]) =
     lit "$[" ++ [DQUOTE] ++ lit "customer" ++ [DQUOTE] ++ lit "]".
Proof.
  split; [reflexivity|]. split; [reflexivity|]. split; [|reflexivity].
  intros seg rest. unfold jsonPathToString.
  rewrite join_separated, written_segments. reflexivity.
Qed.

(** ** The coercion of the edited text *)

Lemma str_eqb_eq a b : str_eqb a b = true <-> a = b.
Proof.
  unfold str_eqb. destruct (str_eq_dec a b); split; congruence.
Qed.

(** The test of line 101 in words: the text is one of the three literals,
    or it is not empty and made of minus signs, digits and dots. *)
Lemma looks_like_literal_spec t :
  looks_like_literal t = true <->
  t = lit "null" \/ t = lit "true" \/ t = lit "false"
  \/ (t <> [] /\
      Forall (fun c => c = 45%N \/ (48 <= c <= 57)%N \/ c = 46%N) t).
Proof.
  assert (Hnum : numeric_like t = true <->
    t <> [] /\ Forall (fun c => c = 45%N \/ (48 <= c <= 57)%N \/ c = 46%N) t).
  { assert (Hall : forallb (fun c => N.eqb c 45 || is_digit c || N.eqb c 46) t
                   = true <->
                   Forall (fun c => c = 45%N \/ (48 <= c <= 57)%N \/ c = 46%N) t).
    { rewrite forallb_forall, Forall_forall.
      split; intros H c Hc; specialize (H c Hc); unfold is_digit in *.
      - rewrite !orb_true_iff, andb_true_iff, !N.eqb_eq, !N.leb_le in H. tauto.
      - rewrite !orb_true_iff, andb_true_iff, !N.eqb_eq, !N.leb_le. tauto. }
    destruct t as [|c t]; [simpl; split; [discriminate | intros [H _]; congruence]|].
    unfold numeric_like. rewrite Hall. split; [intros H; split; [discriminate | exact H] | tauto]. }
  unfold looks_like_literal.
  rewrite !orb_true_iff, !str_eqb_eq, Hnum. tauto.
Qed.

(** The three literals are read by [JSON.parse], so the second attempt can
    only fail on a text of minus signs, digits and dots. *)
Lemma second_parse_fails_on_numeric_only t :
  looks_like_literal t = true -> JSON_parse t = None ->
  numeric_like t = true.
Proof.
  unfold looks_like_literal. rewrite !orb_true_iff, !str_eqb_eq.
  intros [[[H|H]|H]|H] Hparse; [exact H | subst t; discriminate Hparse ..].
Qed.

(** The replacement of line 104 on some texts: a quote at each end, at one
    end only, a lone quote, and quotes inside. *)
Example strip_quotes_examples :
  strip_quotes (quote (lit "abc")) = lit "abc"
  /\ strip_quotes ([DQUOTE] ++ lit "abc") = lit "abc"
  /\ strip_quotes (lit "abc" ++ [DQUOTE]) = lit "abc"
  /\ strip_quotes [DQUOTE] = []
  /\ strip_quotes (lit "a" ++ [DQUOTE] ++ lit "b") = lit "a" ++ [DQUOTE] ++ lit "b"
  /\ strip_quotes (lit "abc") = lit "abc".
Proof. repeat split; reflexivity. Qed.

(** The branches of the coercion. A text that [JSON.parse] reads gives the
    parsed value. Otherwise, when the trimmed text is [null], [true] or
    [false], or is made of minus signs, digits and dots only, the trimmed
    text is given to [JSON.parse]: its value is the result, and its failure
    is raised. Otherwise the result is the trimmed text without a double
    quote at its start and at its end. The coercion raises exactly on the
    texts that the first parse rejects and whose trimmed text is made of
    minus signs, digits and dots without being a JSON number. *)
Lemma editedValue_cases (text : JsString) :
  (forall v, JSON_parse text = Some v -> editedValue text = Normal v)
  /\ (JSON_parse text = None -> looks_like_literal (trim text) = true ->
      editedValue text =
      match JSON_parse (trim text) with
      | Some v => Normal v
      | None => Throw (SyntaxError (trim text))
      end)
  /\ (JSON_parse text = None -> looks_like_literal (trim text) = false ->
      editedValue text = Normal (JStr (strip_quotes (trim text))))
  /\ ((exists e, editedValue text = Throw e) <->
      JSON_parse text = None /\ numeric_like (trim text) = true
      /\ JSON_parse (trim text) = None).
Proof.
  unfold editedValue. split; [|split; [|split]].
  - intros v H. rewrite H. reflexivity.
  - intros H1 H2. rewrite H1, H2. reflexivity.
  - intros H1 H2. rewrite H1, H2. reflexivity.
  - destruct (JSON_parse text) as [v|] eqn:H1.
    + split; [intros [e He]; discriminate | intros [H _]; discriminate].
    + destruct (looks_like_literal (trim text)) eqn:H2.
      * destruct (JSON_parse (trim text)) as [v|] eqn:H3.
        -- split; [intros [e He]; discriminate | intros (_ & _ & H); discriminate].
        -- split; [|intros _; eexists; reflexivity].
           intros _. repeat split.
           apply second_parse_fails_on_numeric_only; assumption.
      * split; [intros [e He]; discriminate|].
        intros (_ & Hn & _). unfold looks_like_literal in H2.
        rewrite Hn in H2. discriminate.
Qed.

(** Claim C3. The coercion does not give a value for every text that the
    first [JSON.parse] rejects. The text [1.2.3] is rejected by the first
    [JSON.parse], consists of digits and dots, and is rejected by the
    [JSON.parse] of line 102 too, which no [catch] of the coercion guards:
    the coercion raises a [SyntaxError]. So it does on a date between
    spaces, on a lone minus sign and on a lone dot, and on every text which
    the first parse rejects and whose trimmed text is made of minus signs,
    digits and dots without being a JSON number. The fallback of line 104,
    which the comment of line 99 announces for a text that fails to parse,
    would give these texts as strings. The other branches are as described:
    a text the second parse reads (a number after a no-break space) gives
    its value, and any other text gives its trimmed text with a double quote
    removed at its start and at its end. *)
Theorem editedValue_raises_on_dotted_digits :
  (JSON_parse (lit "1.2.3") = None
   /\ trim (lit "1.2.3") = lit "1.2.3"
   /\ numeric_like (lit "1.2.3") = true
   /\ editedValue (lit "1.2.3") = Throw (SyntaxError (lit "1.2.3"))
   /\ strip_quotes (trim (lit "1.2.3")) = lit "1.2.3")
  /\ (JSON_parse (lit " 2024-01-15 ") = None
      /\ editedValue (lit " 2024-01-15 ")
         = Throw (SyntaxError (lit "2024-01-15"))
      /\ strip_quotes (trim (lit " 2024-01-15 ")) = lit "2024-01-15")
  /\ editedValue (lit "-") = Throw (SyntaxError (lit "-"))
  /\ editedValue (lit ".") = Throw (SyntaxError (lit "."))
  /\ (forall text,
        JSON_parse text = None -> numeric_like (trim text) = true ->
        JSON_parse (trim text) = None ->
        editedValue text = Throw (SyntaxError (trim text)))
  /\ editedValue ([160%N] ++ lit "12") = Normal (JNum (Number.of_nat 12))
  /\ editedValue (lit " hello world ") = Normal (JStr (lit "hello world"))
  /\ editedValue ([DQUOTE] ++ lit "abc") = Normal (JStr (lit "abc"))
  /\ editedValue (lit " abc" ++ [DQUOTE] ++ lit " ") = Normal (JStr (lit "abc"))
  /\ editedValue (lit "{a:1}") = Normal (JStr (lit "{a:1}")).
Proof.
  split; [repeat split; reflexivity|].
  split; [repeat split; reflexivity|].
  split; [reflexivity|]. split; [reflexivity|].
  split; [|repeat split; reflexivity].
  intros text H1 H2 H3. unfold editedValue, looks_like_literal.
  rewrite H1, H2, H3. reflexivity.
Qed.

(** ** normalizeNodeData *)

Lemma assign_other k v obj :
  k <> PROTO ->
  assign k v obj =
  {| own := define k v (own obj);
     has_Object_prototype := has_Object_prototype obj |}.
Proof.
  intros Hk. unfold assign.
  destruct (str_eqb k PROTO) eqn:E; [|reflexivity].
  apply str_eqb_eq in E. contradiction.
Qed.

Lemma lookup_snoc_none {V : Type} k (p : Props V) k0 v0 :
  lookup k (p ++ [(k0, v0)]) = None -> lookup k p = None /\ k <> k0.
Proof.
  rewrite lookup_app. destruct (lookup k p); [discriminate|].
  simpl. destruct (str_eq_dec k k0); [discriminate | auto].
Qed.

Lemma collect_row_kept obj row :
  collect_row obj row =
  match kept_row row with
  | Some kv => assign (fst kv) (snd kv) obj
  | None => obj
  end.
Proof.
  unfold collect_row, kept_row.
  destruct (Graph.type row); destruct (Graph.key row) as [k0|];
    try reflexivity; destruct (str_truthy k0); reflexivity.
Qed.

(** The object the loop of lines 41 to 45 builds, when no row that is kept
    has the key [__proto__]: under every key, the value of the last kept
    row with that key. *)
Lemma collect_rows_lookup rows : forall obj k,
  row_value PROTO rows = None ->
  lookup k (own (fold_left collect_row rows obj)) =
  match row_value k rows with
  | Some v => Some v
  | None => lookup k (own obj)
  end.
Proof.
  unfold row_value.
  induction rows as [|row rest IH]; intros obj k Hproto; [reflexivity|].
  cbn [fold_left kept_rows] in *. rewrite collect_row_kept.
  destruct (kept_row row) as [[k0 v0]|].
  - cbn [rev fst snd] in *.
    apply lookup_snoc_none in Hproto. destruct Hproto as [Hrest Hne].
    rewrite IH by exact Hrest.
    rewrite assign_other by congruence. cbn [own].
    rewrite lookup_app, lookup_define. simpl.
    destruct (lookup k (rev (kept_rows rest))); [reflexivity|].
    destruct (str_eq_dec k k0); reflexivity.
  - apply IH, Hproto.
Qed.

(** Claim C5, where the code departs from it. Both rows have a truthy key
    and a type that is neither "array" nor "object", so the object of the
    claim maps [__proto__] to ["x"] and [a] to [1]; the text returned has
    the property [a] only, because the assignment [obj["__proto__"] = "x"]
    reaches the setter inherited from [Object.prototype] and creates no
    property. The first row alone gives the text of the empty object. *)
Theorem normalizeNodeData_loses_proto_row :
  kept_rows proto_rows =
    [(PROTO, PString (lit "x")); (lit "a", PNumber (Number.of_nat 1))]
  /\ normalizeNodeData (Some proto_rows) =
     lit "{" ++ [NEWLINE] ++ lit "  " ++ quote (lit "a") ++ lit ": 1"
     ++ [NEWLINE] ++ lit "}"
  /\ normalizeNodeData (Some proto_rows) <>
     JSON_stringify_2 (kept_rows proto_rows)
  /\ normalizeNodeData (Some (firstn 1 proto_rows)) = lit "{}".
Proof.
  split; [reflexivity|]. split; [vm_compute; reflexivity|].
  split; [vm_compute; discriminate | reflexivity].
Qed.

(** ** The component *)

Section ComponentFacts.
Context {env : Environment}.

Lemma walk_app current p q :
  walk current (p ++ q) = (c <- walk current p ;; walk c q).
Proof.
  revert current. induction p as [|segment p IH]; intros current; simpl.
  - reflexivity.
  - destruct (get current segment) as [next|e]; simpl; [apply IH | reflexivity].
Qed.

(** Reading along a path that indexes own properties and elements gives
    the value the path reaches. *)
Lemma reaches_walk current path v :
  reaches current path v -> walk current path = Normal v.
Proof.
  induction 1 as [v|props segment rest child v Hk _ IH
                  |items segment rest i child v Hi Hn _ IH].
  - reflexivity.
  - cbn [walk]. unfold get. rewrite Hk. cbn [bind]. exact IH.
  - cbn [walk]. unfold get. rewrite Hi, Hn. cbn [bind]. exact IH.
Qed.

(** Claim C8. [getValueAtPath] gives a value for every text and every
    path: the value reached by indexing the parsed document with the
    segments of the path, one after the other (a segment reads the own
    property of an object under its key and the element of an array at its
    index), and [null] when the parser or one of the reads raises an error
    (as a read from [null] or [undefined] does). *)
Theorem getValueAtPath_total (json : JsString) (path : Graph.JSONPath) :
  (exists v, getValueAtPath json path = v)
  /\ (forall parsed v,
        parse json = Normal parsed -> walk parsed path = Normal v ->
        getValueAtPath json path = v)
  /\ (forall e, parse json = Throw e -> getValueAtPath json path = JNull)
  /\ (forall parsed before segment rest current e,
        parse json = Normal parsed ->
        path = before ++ segment :: rest ->
        walk parsed before = Normal current ->
        get current segment = Throw e ->
        getValueAtPath json path = JNull)
  /\ (forall current, walk current [] = Normal current)
  /\ (forall current segment rest,
        walk current (segment :: rest) =
        (next <- get current segment ;; walk next rest))
  /\ (forall segment,
        get JNull segment = Throw (TypeError (property_key segment))
        /\ get JUndefined segment = Throw (TypeError (property_key segment)))
  /\ (forall parsed v,
        parse json = Normal parsed -> reaches parsed path v ->
        getValueAtPath json path = v)
  /\ (forall props segment child,
        lookup (property_key segment) props = Some child ->
        get (JObj props) segment = Normal child)
  /\ (forall items segment i child,
        array_index (property_key segment) = Some i ->
        nth_error items (Z.to_nat i) = Some child ->
        get (JArr items) segment = Normal child).
Proof.
  unfold getValueAtPath, value_at.
  split; [eexists; reflexivity|].
  split; [intros parsed v Hp Hw; rewrite Hp; simpl; rewrite Hw; reflexivity|].
  split; [intros e Hp; rewrite Hp; reflexivity|].
  split.
  { intros parsed before segment rest current e Hp Hpath Hw Hget.
    subst path. rewrite Hp. cbn [bind]. rewrite walk_app, Hw. cbn [bind walk].
    rewrite Hget. reflexivity. }
  split; [reflexivity|]. split; [reflexivity|]. split; [split; reflexivity|].
  split.
  { intros parsed v Hp Hreach. rewrite Hp. cbn [bind].
    rewrite (reaches_walk _ _ _ Hreach). reflexivity. }
  split.
  - intros props segment child H. unfold get. rewrite H. reflexivity.
  - intros items segment i child Hi Hn. unfold get. rewrite Hi, Hn.
    reflexivity.
Qed.

(** Claim C1. When the value at the path of the node is an object that is
    neither [null] nor an array, and the edited text is read as such an
    object, the value written to the document is the object with the fields
    of the original overlaid by those of the edit: an edited field wins, and
    a field the edit does not have keeps the value of the original. *)
Theorem handleSave_merges_object_fields
  (nodeData : Graph.NodeData) (text : JsString) (s : Stores)
  (o e : Props JsValue) :
  object_properties (getValueAtPath (getJson s) (path_of nodeData)) = Some o ->
  editedValue text = Normal (JObj e) ->
  newJson nodeData text s =
    (edits <- modify (getJson s) (path_of nodeData) (JObj (spread2 o e)) true 2 ;;
     applyEdits (getJson s) edits)
  /\ (forall k,
        lookup k (spread2 o e) =
        match lookup k e with Some v => Some v | None => lookup k o end)
  /\ (forall k v,
        lookup k o = Some v -> lookup k e = None ->
        lookup k (spread2 o e) = Some v).
Proof.
  intros Ho He. split; [|split].
  - unfold newJson, valueToSet. rewrite He. simpl. rewrite Ho. reflexivity.
  - intros k. apply lookup_spread2.
  - intros k v Hk Hno. rewrite lookup_spread2, Hno. exact Hk.
Qed.

(** Claim C2. When a save succeeds, the file store holds the new text with
    [hasChanges] set, the JSON store holds the new text, and the graph is the
    one built from that same text. *)
Theorem handleSave_updates_three_stores
  (w : World) (nodeData : Graph.NodeData) (j : JsString) :
  selectedNode (stores w) = Some nodeData ->
  newJson nodeData (value (state w)) (stores w) = Normal j ->
  contents (stores (handleSave w)) = j
  /\ hasChanges (stores (handleSave w)) = true
  /\ json (stores (handleSave w)) = j
  /\ nodes (stores (handleSave w)) = graph_of j.
Proof.
  intros Hsel Hnew. unfold handleSave. rewrite Hsel, Hnew.
  repeat split; reflexivity.
Qed.

(** A timer that fires runs its callback on the stores and leaves the
    queue; the reset effect that may follow touches the state of the modal
    only. *)
Lemma timer_elapsed_stores (w : World) t rest :
  timers w = t :: rest ->
  stores (step TimerElapsed w) = run_callback (callback t) (stores w)
  /\ timers (step TimerElapsed w) = rest.
Proof.
  intros H. cbn [step]. rewrite H. cbv zeta.
  destruct (same_id _ _); split; reflexivity.
Qed.

(** When the callback of a timer selects a node of another id, the effect
    of lines 67 to 71 runs again: edit mode is left and the text is that of
    the node now selected. When the id is the same, the state is kept. *)
Lemma timer_elapsed_state (w : World) t rest :
  timers w = t :: rest ->
  state (step TimerElapsed w) =
  if same_id (selected_id (run_callback (callback t) (stores w)))
             (selected_id (stores w))
  then state w
  else reset (selectedNode (run_callback (callback t) (stores w))).
Proof.
  intros H. cbn [step]. rewrite H. cbv zeta. cbn [stores].
  destruct (same_id _ _); reflexivity.
Qed.

Lemma find_some_id (wanted : JsString) (l : list Graph.NodeData) n :
  find (fun n => str_eqb (Graph.id n) wanted) l = Some n ->
  In n l /\ Graph.id n = wanted.
Proof.
  intros H. apply find_some in H. destruct H as [Hin Hid].
  split; [exact Hin | apply str_eqb_eq, Hid].
Qed.

Lemma find_none_id (wanted : JsString) (l : list Graph.NodeData) :
  (forall n, In n l -> Graph.id n <> wanted) ->
  find (fun n => str_eqb (Graph.id n) wanted) l = None.
Proof.
  intros H. destruct (find _ l) as [n|] eqn:E; [|reflexivity].
  apply find_some_id in E. destruct E as [Hin Hid].
  exfalso. exact (H n Hin Hid).
Qed.

(** Claim C7. A successful save leaves one more timer, of 50 milliseconds,
    and the graph built from the new text. When the timer fires, the first
    node of the graph's list with the id of the saved node becomes the
    selected node; when the list has no node with that id, the stores stay
    as they are. *)
Theorem reselect_after_save
  (w : World) (nodeData : Graph.NodeData) (j : JsString) :
  selectedNode (stores w) = Some nodeData ->
  newJson nodeData (value (state w)) (stores w) = Normal j ->
  timers (handleSave w) =
    timers w ++ [{| delay := 50; callback := Reselect (Graph.id nodeData) |}]
  /\ nodes (stores (handleSave w)) = graph_of j
  /\ (timers w = [] ->
      stores (step TimerElapsed (handleSave w)) =
      run_callback (Reselect (Graph.id nodeData)) (stores (handleSave w))
      /\ timers (step TimerElapsed (handleSave w)) = [])
  /\ (forall s updatedNode,
        find (fun n => str_eqb (Graph.id n) (Graph.id nodeData)) (nodes s)
          = Some updatedNode ->
        run_callback (Reselect (Graph.id nodeData)) s
          = setSelectedNode updatedNode s
        /\ In updatedNode (nodes s)
        /\ Graph.id updatedNode = Graph.id nodeData)
  /\ (forall s,
        (forall n, In n (nodes s) -> Graph.id n <> Graph.id nodeData) ->
        run_callback (Reselect (Graph.id nodeData)) s = s).
Proof.
  intros Hsel Hnew.
  assert (Hsave : handleSave w =
    {| state := {| isEditing := false; value := value (state w);
                   error := None |};
       stores := update_stores j (stores w);
       timers := timers w
                 ++ [{| delay := 50;
                        callback := Reselect (Graph.id nodeData) |}];
       opened := opened w;
       closeRequests := closeRequests w |}).
  { unfold handleSave. rewrite Hsel, Hnew. reflexivity. }
  rewrite Hsave. cbn [timers stores].
  split; [reflexivity|]. split; [reflexivity|]. split; [|split].
  - intros Hnone. rewrite Hnone.
    match goal with
    | |- stores (step TimerElapsed ?w0) = _ /\ _ =>
        exact (timer_elapsed_stores w0 _ [] eq_refl)
    end.
  - intros s updatedNode Hfind. unfold run_callback. rewrite Hfind.
    apply find_some_id in Hfind. tauto.
  - intros s Hnone. unfold run_callback.
    rewrite find_none_id by exact Hnone. reflexivity.
Qed.

(** Claim C9. With a node selected, an error raised by the coercion of the
    edited text, by [modify] or by [applyEdits] ends the computation of the
    new text; the save then records the message of the error, and leaves
    the edit mode, the edited text, the three stores and the timers as they
    were. *)
Theorem handleSave_error_is_atomic (w : World) (nodeData : Graph.NodeData) :
  selectedNode (stores w) = Some nodeData ->
  let text := value (state w) in
  let original := getJson (stores w) in
  let path := path_of nodeData in
  (forall e, editedValue text = Throw e ->
             newJson nodeData text (stores w) = Throw e)
  /\ (forall edited e,
        editedValue text = Normal edited ->
        modify original path
          (valueToSet (getValueAtPath original path) edited) true 2 = Throw e ->
        newJson nodeData text (stores w) = Throw e)
  /\ (forall edited edits e,
        editedValue text = Normal edited ->
        modify original path
          (valueToSet (getValueAtPath original path) edited) true 2
          = Normal edits ->
        applyEdits original edits = Throw e ->
        newJson nodeData text (stores w) = Throw e)
  /\ (forall err,
        newJson nodeData text (stores w) = Throw err ->
        error (state (handleSave w)) = Some (message_of err)
        /\ isEditing (state (handleSave w)) = isEditing (state w)
        /\ value (state (handleSave w)) = value (state w)
        /\ stores (handleSave w) = stores w
        /\ timers (handleSave w) = timers w).
Proof.
  intros Hsel text original path. subst text original path.
  split; [|split; [|split]].
  - intros e He. unfold newJson. rewrite He. reflexivity.
  - intros edited e He Hm. unfold newJson. rewrite He. simpl. rewrite Hm.
    reflexivity.
  - intros edited edits e He Hm Ha. unfold newJson. rewrite He. simpl.
    rewrite Hm. simpl. exact Ha.
  - intros err Hnew. unfold handleSave. rewrite Hsel, Hnew.
    repeat split; reflexivity.
Qed.

Lemma run_callback_document c s : document (run_callback c s) = document s.
Proof.
  destruct c as [wanted]. unfold run_callback.
  destruct (find _ (nodes s)); reflexivity.
Qed.

(** Claim C10. Edit, Cancel, a change of the text, a change of [opened],
    the close button and a save without a selected node leave the stores as
    they are; Cancel makes the displayed text the normalized text of the
    selected node and clears the error; and an event after which the file
    store, the JSON store or the graph differ is a save, with a node
    selected, that computed a new text. *)
Theorem only_a_successful_save_changes_the_document (w : World) :
  stores (step ClickEdit w) = stores w
  /\ stores (step ClickCancel w) = stores w
  /\ (forall t, stores (step (ChangeText t) w) = stores w)
  /\ (forall o, stores (step (SetOpened o) w) = stores w)
  /\ stores (step ClickClose w) = stores w
  /\ (selectedNode (stores w) = None -> step ClickSave w = w)
  /\ (displayed (step ClickCancel w)
        = normalizeNodeData (rows_of (selectedNode (stores w)))
      /\ value (state (step ClickCancel w))
        = normalizeNodeData (rows_of (selectedNode (stores w)))
      /\ error (state (step ClickCancel w)) = None)
  /\ (forall ev,
        document (stores (step ev w)) <> document (stores w) ->
        ev = ClickSave
        /\ exists nodeData j,
             selectedNode (stores w) = Some nodeData
             /\ newJson nodeData (value (state w)) (stores w) = Normal j).
Proof.
  assert (Hopened : forall o, stores (step (SetOpened o) w) = stores w).
  { intros o. simpl. destruct (Bool.eqb o (opened w)); reflexivity. }
  split_all; try reflexivity.
  - exact Hopened.
  - intros Hsel. simpl. unfold handleSave. rewrite Hsel. reflexivity.
  - intros ev Hdiff. destruct ev as [| | |t| |o|];
      try (exfalso; apply Hdiff; reflexivity).
    + split; [reflexivity|].
      simpl in Hdiff. unfold handleSave in Hdiff.
      destruct (selectedNode (stores w)) as [nodeData|];
        [|exfalso; apply Hdiff; reflexivity].
      destruct (newJson nodeData (value (state w)) (stores w)) as [j|err] eqn:E;
        [|exfalso; apply Hdiff; reflexivity].
      exists nodeData, j. split; [reflexivity | exact E].
    + exfalso. apply Hdiff. rewrite Hopened. reflexivity.
    + exfalso. apply Hdiff. destruct (timers w) as [|t rest] eqn:Et.
      * simpl. rewrite Et. reflexivity.
      * rewrite (proj1 (timer_elapsed_stores w t rest Et)).
        apply run_callback_document.
Qed.

End ComponentFacts.

(** ** The theorems at work on the sample document *)

#[local] Existing Instance sample_environment.

Lemma handleSave_merges_object_fields_witness :
  newJson (env := sample_environment) sample_node sample_edit sample_stores =
    (edits <- modify (getJson sample_stores) (path_of sample_node)
                (JObj (spread2 (fields_of sample_document)
                               (fields_of sample_edit))) true 2 ;;
     applyEdits (getJson sample_stores) edits)
  /\ (forall k,
        lookup k (spread2 (fields_of sample_document) (fields_of sample_edit)) =
        match lookup k (fields_of sample_edit) with
        | Some v => Some v
        | None => lookup k (fields_of sample_document)
        end)
  /\ (forall k v,
        lookup k (fields_of sample_document) = Some v ->
        lookup k (fields_of sample_edit) = None ->
        lookup k (spread2 (fields_of sample_document) (fields_of sample_edit))
        = Some v).
Proof.
  apply (handleSave_merges_object_fields (env := sample_environment));
    reflexivity.
Defined.

(** In the sample document, the path [b], [0] reaches the number 2, and
    the path [c] the string [x]. *)
Lemma getValueAtPath_total_witness :
  getValueAtPath sample_document
    [Graph.Name (lit "b"); Graph.Index (Number.of_nat 0)]
  = JNum (Number.of_nat 2)
  /\ getValueAtPath sample_document [Graph.Name (lit "c")] = JStr (lit "x")
  /\ getValueAtPath sample_document [] = JObj (fields_of sample_document).
Proof.
  pose proof (getValueAtPath_total (env := sample_environment) sample_document)
    as H.
  split; [|split].
  - destruct (H [Graph.Name (lit "b"); Graph.Index (Number.of_nat 0)])
      as (_ & _ & _ & _ & _ & _ & _ & Hreach & _).
    apply (Hreach (JObj (fields_of sample_document))); [reflexivity|].
    eapply reaches_property; [reflexivity|].
    eapply reaches_element; [reflexivity | reflexivity | apply reaches_here].
  - destruct (H [Graph.Name (lit "c")])
      as (_ & _ & _ & _ & _ & _ & _ & Hreach & _).
    apply (Hreach (JObj (fields_of sample_document))); [reflexivity|].
    eapply reaches_property; [reflexivity | apply reaches_here].
  - destruct (H []) as (_ & _ & _ & _ & _ & _ & _ & Hreach & _).
    apply (Hreach (JObj (fields_of sample_document)));
      [reflexivity | apply reaches_here].
Defined.

Lemma handleSave_updates_three_stores_witness :
  let w := handleSave (env := sample_environment) (sample_world sample_edit) in
  contents (stores w) = sample_result
  /\ hasChanges (stores w) = true
  /\ json (stores w) = sample_result
  /\ nodes (stores w) = sample_graph sample_result.
Proof.
  apply (handleSave_updates_three_stores (env := sample_environment)
           (sample_world sample_edit) sample_node sample_result);
    reflexivity.
Defined.

Lemma reselect_after_save_witness :
  let w := handleSave (env := sample_environment) (sample_world sample_edit) in
  timers w = [{| delay := 50; callback := Reselect (lit "1") |}]
  /\ selectedNode (stores (step (env := sample_environment) TimerElapsed w))
     = hd_error (sample_graph sample_result).
Proof.
  destruct (reselect_after_save (env := sample_environment)
              (sample_world sample_edit) sample_node sample_result
              eq_refl eq_refl) as (Htimers & _ & Hfire & _).
  split; [exact Htimers|].
  destruct (Hfire eq_refl) as [Hstores _].
  exact (f_equal selectedNode Hstores).
Defined.

Lemma handleSave_error_is_atomic_witness :
  let w := sample_world (lit "1.2.3") in
  error (state (handleSave (env := sample_environment) w))
    = Some (lit "Unexpected token")
  /\ isEditing (state (handleSave (env := sample_environment) w)) = true
  /\ value (state (handleSave (env := sample_environment) w)) = lit "1.2.3"
  /\ stores (handleSave (env := sample_environment) w) = sample_stores
  /\ timers (handleSave (env := sample_environment) w) = [].
Proof.
  destruct (handleSave_error_is_atomic (env := sample_environment)
              (sample_world (lit "1.2.3")) sample_node eq_refl)
    as (_ & _ & _ & H).
  exact (H (SyntaxError (lit "1.2.3")) eq_refl).
Defined.

(* ===================================================================== *)
(** * Part 4: further properties of the code                             *)
(* ===================================================================== *)

(** ** jsonPathToString: one group per segment *)

Lemma separated_groups (ws : list JsString) : forall w,
  w ++ List.concat (map (app (lit "][")) ws) ++ lit "]" =
  (w ++ lit "]")
  ++ List.concat (map (fun x => lit "[" ++ x ++ lit "]") ws).
Proof.
  induction ws as [|w' ws IH]; intros w.
  { cbn [map List.concat]. rewrite app_nil_r. reflexivity. }
  cbn [map List.concat]. rewrite <- !app_assoc.
  change (lit "][" ++ w' ++ List.concat (map (app (lit "][")) ws) ++ lit "]")
    with (lit "]" ++ lit "[" ++ w' ++ List.concat (map (app (lit "][")) ws)
          ++ lit "]").
  rewrite (IH w'). rewrite <- !app_assoc. reflexivity.
Qed.

(** For every path, the empty one included, the path string is [$]
    followed by one bracketed group per segment, in order; so a path
    extended by a segment prints as the path followed by the group of that
    segment. *)
Theorem jsonPathToString_groups (p : Graph.JSONPath) :
  jsonPathToString (Some p) = lit "$" ++ List.concat (map bracket_group p)
  /\ (forall seg,
        jsonPathToString (Some (p ++ [seg])) =
        jsonPathToString (Some p) ++ bracket_group seg).
Proof.
  assert (Hall : forall q,
    jsonPathToString (Some q) = lit "$" ++ List.concat (map bracket_group q)).
  { intros [|seg rest]; [reflexivity|].
    unfold jsonPathToString.
    rewrite join_separated, written_segments. cbn [map].
    rewrite separated_cons, <- app_assoc, separated_groups.
    unfold bracket_group. rewrite map_map. cbn [List.concat].
    rewrite <- !app_assoc. reflexivity. }
  split; [apply Hall|].
  intros seg. rewrite !Hall, map_app, concat_app. cbn [map List.concat].
  rewrite app_nil_r, <- app_assoc. reflexivity.
Qed.

(** ** The merge: the keys of the merged object *)

Section KeyFacts.
Context {V : Type}.
Implicit Types (k : JsString) (v : V) (p : Props V).

Lemma has_own_false k p : has_own k p = false <-> ~ In k (keys p).
Proof.
  unfold has_own, keys. split.
  - intros H Hin. induction p as [|[k0 v0] p IH]; simpl in *; [contradiction|].
    destruct (str_eq_dec k k0); [discriminate|].
    destruct Hin as [E|Hin]; [congruence | auto].
  - intros H. destruct (lookup k p) as [v|] eqn:E; [|reflexivity].
    exfalso. apply H. eapply lookup_in_keys, E.
Qed.

Lemma keys_overwrite k v p : keys (overwrite k v p) = keys p.
Proof.
  unfold keys. induction p as [|[k0 v0] p IH]; simpl; [reflexivity|].
  destruct (str_eq_dec k k0); simpl; [reflexivity | rewrite IH; reflexivity].
Qed.

Lemma in_keys_insert_index k' i k v p :
  In k' (keys (insert_index i k v p)) <-> k' = k \/ In k' (keys p).
Proof.
  unfold keys. induction p as [|[k0 v0] p IH]; simpl.
  - intuition congruence.
  - destruct (array_index k0) as [j|]; [destruct (j <? i)|]; simpl;
      try rewrite IH; intuition congruence.
Qed.

Lemma nodup_insert_index i k v p :
  ~ In k (keys p) -> NoDup (keys p) -> NoDup (keys (insert_index i k v p)).
Proof.
  induction p as [|[k0 v0] p IH]; intros Hout Hnd.
  - simpl. constructor; [intros [] | constructor].
  - cbn [insert_index].
    assert (Hfront : NoDup (keys ((k, v) :: (k0, v0) :: p))).
    { unfold keys. cbn [map fst]. constructor; assumption. }
    destruct (array_index k0) as [j|]; [destruct (j <? i)|]; try exact Hfront.
    unfold keys in *. cbn [map fst] in *. inversion Hnd; subst.
    constructor.
    + intros Hin. apply (in_keys_insert_index k0 i k v p) in Hin.
      destruct Hin as [E|Hin]; [subst; apply Hout; left; reflexivity | auto].
    + apply IH; [intros Hin; apply Hout; right; exact Hin | assumption].
Qed.

Lemma in_keys_define k' k v p :
  In k' (keys (define k v p)) <-> k' = k \/ In k' (keys p).
Proof.
  unfold define. destruct (has_own k p) eqn:E.
  - rewrite keys_overwrite. split; [auto|].
    intros [->|H]; [|exact H].
    destruct (in_dec str_eq_dec k (keys p)) as [Hin|Hout]; [exact Hin|].
    apply has_own_false in Hout. congruence.
  - destruct (array_index k) as [i|]; [apply in_keys_insert_index|].
    unfold keys. rewrite map_app, in_app_iff. simpl. intuition congruence.
Qed.

(** Defining a property keeps the keys distinct. *)
Lemma nodup_define k v p : NoDup (keys p) -> NoDup (keys (define k v p)).
Proof.
  intros Hnd. unfold define. destruct (has_own k p) eqn:E.
  - rewrite keys_overwrite. exact Hnd.
  - apply has_own_false in E.
    destruct (array_index k) as [i|]; [apply nodup_insert_index; assumption|].
    unfold keys in *. rewrite map_app. simpl.
    apply NoDup_app; [exact Hnd | constructor; [intros [] | constructor] |].
    intros x Hx [<-|[]]. contradiction.
Qed.

Lemma copy_keys_facts (source : Props V) ks : forall target,
  (forall k, In k ks -> In k (keys source)) ->
  NoDup (keys target) ->
  NoDup (keys (fold_left (copy_property source) ks target))
  /\ (forall k, In k (keys (fold_left (copy_property source) ks target))
                <-> In k (keys target) \/ In k ks).
Proof.
  induction ks as [|a ks IH]; intros target Hsub Hnd.
  - simpl. split; [exact Hnd | intuition].
  - cbn [fold_left].
    assert (Hstep : NoDup (keys (copy_property source target a))
                    /\ forall k, In k (keys (copy_property source target a))
                                 <-> k = a \/ In k (keys target)).
    { unfold copy_property.
      destruct (lookup a source) as [v|] eqn:E.
      - split; [apply nodup_define, Hnd | intros k; apply in_keys_define].
      - exfalso. assert (Hin : In a (keys source)) by (apply Hsub; left; reflexivity).
        apply (proj1 (has_own_false a source)); [|exact Hin].
        unfold has_own. rewrite E. reflexivity. }
    destruct Hstep as [Hnd' Hin'].
    destruct (IH (copy_property source target a)) as [Hnd2 Hin2];
      [intros k Hk; apply Hsub; right; exact Hk | exact Hnd' |].
    split; [exact Hnd2|].
    intros k. rewrite Hin2, Hin'. simpl. intuition congruence.
Qed.

Lemma copy_properties_keys (target source : Props V) :
  NoDup (keys target) ->
  NoDup (keys (copy_properties target source))
  /\ (forall k, In k (keys (copy_properties target source))
                <-> In k (keys target) \/ In k (keys source)).
Proof.
  intros Hnd. unfold copy_properties.
  apply copy_keys_facts; [intros k Hk; exact Hk | exact Hnd].
Qed.

End KeyFacts.

Section MoreComponentFacts.
Context {env : Environment}.

(** The value line 113 builds from two objects is an object whose keys are
    distinct and are exactly the keys of the original and of the edit: the
    merge drops no key and invents none. *)
Theorem valueToSet_keys (o e : Props JsValue) :
  valueToSet (JObj o) (JObj e) = JObj (spread2 o e)
  /\ NoDup (keys (spread2 o e))
  /\ (forall k, In k (keys (spread2 o e)) <-> In k (keys o) \/ In k (keys e)).
Proof.
  split; [reflexivity|]. unfold spread2.
  destruct (copy_properties_keys (V := JsValue) [] o) as [Hnd1 Hin1];
    [constructor|].
  destruct (copy_properties_keys (copy_properties [] o) e Hnd1) as [Hnd2 Hin2].
  split; [exact Hnd2|].
  intros k. rewrite Hin2, Hin1. simpl. intuition.
Qed.

(** ** getValueAtPath below a missing value *)

(** When the value at a path is [null] or [undefined] (or reading it
    failed, which gives [null]), the value at every longer path is
    [null]. *)
Theorem getValueAtPath_below_null
  (json : JsString) (p q : Graph.JSONPath) :
  getValueAtPath json p = JNull \/ getValueAtPath json p = JUndefined ->
  q <> [] ->
  getValueAtPath json (p ++ q) = JNull.
Proof.
  unfold getValueAtPath, value_at. intros H Hq.
  destruct (parse json) as [parsed|err]; [|reflexivity].
  cbn [bind] in *. rewrite walk_app.
  destruct q as [|segment rest]; [congruence|].
  destruct (walk parsed p) as [v|err]; [|reflexivity].
  cbn [bind walk].
  destruct H as [H|H]; subst v; reflexivity.
Qed.

(** ** The message of a rejected text *)

Lemma editedValue_throws_syntax_error text e :
  editedValue text = Throw e -> e = SyntaxError (trim text).
Proof.
  unfold editedValue.
  destruct (JSON_parse text); [discriminate|].
  destruct (looks_like_literal (trim text)); [|discriminate].
  destruct (JSON_parse (trim text)); [discriminate | congruence].
Qed.

(** When a node is selected and the coercion of the edited text raises,
    the save records a message that is not empty, so the condition of line
    184 holds and the message is rendered; the text stays as typed. *)
Theorem rejected_text_shows_message
  (w : World) (nodeData : Graph.NodeData) (e : Thrown) :
  selectedNode (stores w) = Some nodeData ->
  editedValue (value (state w)) = Throw e ->
  exists m,
    error (state (handleSave w)) = Some m
    /\ str_truthy m = true
    /\ value (state (handleSave w)) = value (state w)
    /\ stores (handleSave w) = stores w.
Proof.
  intros Hsel He.
  pose proof (editedValue_throws_syntax_error _ _ He) as ->.
  exists (message_of (SyntaxError (trim (value (state w))))).
  unfold handleSave, newJson. rewrite Hsel, He. cbn [bind].
  split_all; try reflexivity.
  unfold message_of.
  destruct (str_truthy (error_message _)) eqn:E; [exact E | reflexivity].
Qed.

(** ** The stores stay in step *)

Lemma run_callback_in_sync c s : in_sync s -> in_sync (run_callback c s).
Proof.
  intros H. destruct c as [wanted]. unfold run_callback.
  destruct (find _ (nodes s)); exact H.
Qed.

(** A save that succeeds leaves the file store and the graph in agreement
    with the JSON store, whatever they held before; and once they agree, no
    event of the modal makes them differ. *)
Theorem stores_stay_in_sync (w : World) :
  (forall nodeData j,
     selectedNode (stores w) = Some nodeData ->
     newJson nodeData (value (state w)) (stores w) = Normal j ->
     in_sync (stores (handleSave w)))
  /\ (in_sync (stores w) -> forall ev, in_sync (stores (step ev w))).
Proof.
  split.
  - intros nodeData j Hsel Hnew. unfold handleSave. rewrite Hsel, Hnew.
    split; reflexivity.
  - intros Hsync ev. destruct ev as [| | |t| |o|]; try exact Hsync.
    + simpl. unfold handleSave.
      destruct (selectedNode (stores w)) as [nodeData|]; [|exact Hsync].
      destruct (newJson nodeData (value (state w)) (stores w));
        [split; reflexivity | exact Hsync].
    + simpl. destruct (Bool.eqb o (opened w)); exact Hsync.
    + destruct (timers w) as [|t rest] eqn:Et.
      * simpl. rewrite Et. exact Hsync.
      * rewrite (proj1 (timer_elapsed_stores w t rest Et)).
        apply run_callback_in_sync, Hsync.
Qed.

(** ** Cancel discards what was typed *)

Lemma local_event_frame ev w :
  local_event ev = true ->
  stores (step ev w) = stores w /\ timers (step ev w) = timers w
  /\ opened (step ev w) = opened w
  /\ closeRequests (step ev w) = closeRequests w.
Proof.
  destruct ev; try discriminate; intros _; split_all; reflexivity.
Qed.

(** After any sequence of Edit, Cancel and text changes, Cancel leaves the
    modal as a Cancel without them would have: nothing of what was typed
    survives it. *)
Theorem cancel_discards_typing (evs : list Event) (w : World) :
  forallb local_event evs = true ->
  step ClickCancel (run evs w) = step ClickCancel w.
Proof.
  revert w. induction evs as [|ev evs IH]; intros w Hall; [reflexivity|].
  cbn [forallb] in Hall. apply andb_true_iff in Hall. destruct Hall as [Hev Hall].
  unfold run in *. cbn [fold_left]. rewrite IH by exact Hall.
  destruct (local_event_frame ev w Hev) as (Hs & Ht & Ho & Hc).
  simpl. unfold handleCancel, with_state. rewrite Hs, Ht, Ho, Hc. reflexivity.
Qed.

(** ** The error belongs to the edit mode *)

(** In every world the component reaches from its mounting through the
    events the rendered modal offers, an error is recorded only while the
    modal is in edit mode. *)
Theorem error_only_in_edit_mode (is_open : bool) (s0 : Stores) (w : World) :
  reachable is_open s0 w ->
  isEditing (state w) = false -> error (state w) = None.
Proof.
  induction 1 as [|ev w Hreach IH Hen]; [reflexivity|].
  destruct ev as [| | |t| |o|]; simpl in *.
  - discriminate.
  - reflexivity.
  - unfold handleSave.
    destruct (selectedNode (stores w)) as [nodeData|]; [|exact IH].
    destruct (newJson nodeData (value (state w)) (stores w)); [reflexivity|].
    simpl. congruence.
  - congruence.
  - exact IH.
  - destruct (Bool.eqb o (opened w)); [exact IH | reflexivity].
  - destruct (timers w) as [|t rest]; [exact IH|]. cbv zeta.
    destruct (same_id _ _); [exact IH | reflexivity].
Qed.

(** ** The edit buffer after a save *)

Lemma str_eqb_refl a : str_eqb a a = true.
Proof. apply str_eqb_eq. reflexivity. Qed.

(** The callback of a save selects a node of the id it was given, or
    leaves the selection: the id of the selected node stays what it was
    when that id is selected already. *)
Lemma reselect_keeps_id (wanted : JsString) (s : Stores) :
  selected_id s = Some wanted ->
  same_id (selected_id (run_callback (Reselect wanted) s)) (selected_id s)
  = true.
Proof.
  intros Hid. unfold run_callback.
  destruct (find _ (nodes s)) as [n|] eqn:E.
  - apply find_some_id in E. destruct E as [_ E].
    rewrite Hid. unfold selected_id. cbn [setSelectedNode selectedNode option_map].
    rewrite E. apply str_eqb_refl.
  - rewrite Hid. apply str_eqb_refl.
Qed.

(** After a save that succeeded with no other timer pending, and the
    firing of the timer it set, pressing Edit shows the text that was
    saved: the node selected again has the id of the saved node, the reset
    effect does not run, and the state variable [value] is not refreshed
    from the node. *)
Theorem edit_after_save_shows_saved_text
  (w : World) (nodeData : Graph.NodeData) (j : JsString) :
  selectedNode (stores w) = Some nodeData ->
  newJson nodeData (value (state w)) (stores w) = Normal j ->
  timers w = [] ->
  displayed (step ClickEdit (step TimerElapsed (step ClickSave w)))
  = value (state w).
Proof.
  intros Hsel Hnew Hnone. cbn [step]. unfold handleSave.
  rewrite Hsel, Hnew, Hnone. cbn [timers app stores callback]. cbv zeta.
  cbn [stores].
  rewrite reselect_keeps_id; [reflexivity|].
  unfold selected_id, update_stores. cbn [setGraph setJson setContents selectedNode].
  rewrite Hsel. reflexivity.
Qed.

End MoreComponentFacts.

(** ** Blank text *)

Lemma trim_space_between_tokens c :
  is_trim_space c = true ->
  lex_idle c = Some (Idle, []) \/ lex_idle c = None.
Proof.
  intros H. unfold lex_idle.
  destruct (is_json_space c) eqn:Ej; [left; reflexivity | right].
  destruct c as [|p]; [discriminate|].
  do 17 (try (destruct p as [p|p|];
              try discriminate H; try discriminate Ej; try reflexivity)).
  all: exfalso; cbv [is_trim_space] in H;
    rewrite andb_true_iff, N.leb_le, N.leb_le in H; lia.
Qed.

Lemma blank_has_no_value text :
  forallb is_trim_space text = true -> JSON_parse text = None.
Proof.
  intros H. unfold JSON_parse, lex.
  assert (Hlex : lex_from Idle text = Some [] \/ lex_from Idle text = None).
  { induction text as [|c rest IH]; [left; reflexivity|].
    cbn [forallb] in H. apply andb_true_iff in H. destruct H as [Hc Hrest].
    cbn [lex_from lex_step].
    destruct (trim_space_between_tokens c Hc) as [-> | ->]; [|right; reflexivity].
    destruct (IH Hrest) as [-> | ->]; [left | right]; reflexivity. }
  destruct Hlex as [-> | ->]; reflexivity.
Qed.

Lemma blank_trims_to_nothing text :
  forallb is_trim_space text = true -> trim text = [].
Proof.
  intros H. unfold trim.
  assert (Hstart : trim_start text = []).
  { induction text as [|c rest IH]; [reflexivity|].
    cbn [forallb] in H. apply andb_true_iff in H. destruct H as [Hc Hrest].
    cbn [trim_start]. rewrite Hc. apply IH, Hrest. }
  rewrite Hstart. reflexivity.
Qed.

(** A text that is empty or made of white space only is coerced to the
    empty string: the save of a blank text writes [""], it neither fails
    nor removes the value. *)
Theorem blank_text_is_the_empty_string (text : JsString) :
  forallb is_trim_space text = true ->
  editedValue text = Normal (JStr []).
Proof.
  intros H. unfold editedValue.
  rewrite (blank_has_no_value text H), (blank_trims_to_nothing text H).
  reflexivity.
Qed.

(** ** The coerced value is JSON data *)

Lemma read_word_is_data w t : read_word w = Some t -> token_is_data t = true.
Proof.
  unfold read_word.
  destruct (str_eq_dec w (lit "null")); [intros [= <-]; reflexivity|].
  destruct (str_eq_dec w (lit "true")); [intros [= <-]; reflexivity|].
  destruct (str_eq_dec w (lit "false")); [intros [= <-]; reflexivity|].
  destruct (read_number w); [intros [= <-]; reflexivity | discriminate].
Qed.

Lemma lex_idle_is_data c mode ts :
  lex_idle c = Some (mode, ts) -> forallb token_is_data ts = true.
Proof.
  unfold lex_idle.
  destruct (is_json_space c); [intros [= <- <-]; reflexivity|].
  destruct (N.eqb c DQUOTE); [intros [= <- <-]; reflexivity|].
  destruct (is_word_char c); [intros [= <- <-]; reflexivity|].
  destruct (punctuation c) as [t|] eqn:E; [|discriminate].
  intros [= <- <-]. unfold punctuation in E.
  destruct c as [|p]; [discriminate|].
  do 8 (try (destruct p as [p|p|]; try discriminate E));
    injection E as <-; reflexivity.
Qed.

Lemma lex_step_is_data mode c mode' ts :
  lex_step mode c = Some (mode', ts) -> forallb token_is_data ts = true.
Proof.
  destruct mode as [|buf|buf|buf|buf hex]; cbn [lex_step].
  - apply lex_idle_is_data.
  - destruct (is_word_char c); [intros [= <- <-]; reflexivity|].
    destruct (read_word (rev buf)) as [t|] eqn:Ew; [|discriminate].
    destruct (lex_idle c) as [[m ts']|] eqn:Ei; [|discriminate].
    intros [= <- <-]. cbn [forallb].
    rewrite (read_word_is_data _ _ Ew), (lex_idle_is_data _ _ _ Ei).
    reflexivity.
  - destruct (N.eqb c DQUOTE); [intros [= <- <-]; reflexivity|].
    destruct (N.eqb c BACKSLASH); [intros [= <- <-]; reflexivity|].
    destruct (c <? 32)%N; [discriminate | intros [= <- <-]; reflexivity].
  - destruct (N.eqb c 117); [intros [= <- <-]; reflexivity|].
    destruct (unescape c); [intros [= <- <-]; reflexivity | discriminate].
  - destruct (hex_value c); [|discriminate].
    destruct hex as [|a [|b [|d [|x hex]]]]; intros [= <- <-]; reflexivity.
Qed.

Lemma lex_from_is_data text : forall mode ts,
  lex_from mode text = Some ts -> forallb token_is_data ts = true.
Proof.
  induction text as [|c rest IH]; intros mode ts; cbn [lex_from].
  - destruct mode as [|buf|buf|buf|buf hex]; try discriminate.
    + intros [= <-]. reflexivity.
    + destruct (read_word (rev buf)) as [t|] eqn:Ew; [|discriminate].
      intros [= <-]. cbn [forallb]. rewrite (read_word_is_data _ _ Ew).
      reflexivity.
  - destruct (lex_step mode c) as [[mode' ts1]|] eqn:Es; [|discriminate].
    destruct (lex_from mode' rest) as [more|] eqn:Er; [|discriminate].
    intros [= <-]. rewrite forallb_app.
    rewrite (lex_step_is_data _ _ _ _ Es), (IH _ _ Er). reflexivity.
Qed.

Lemma deliver_is_data v stack st :
  is_json_data v = true -> deliver v stack = Some st ->
  pending_is_data st = true.
Proof.
  intros Hv. destruct stack as [|[items|props [k|]] below]; simpl;
    try discriminate; intros [= <-]; try reflexivity. exact Hv.
Qed.

Lemma parse_step_is_data st t st' :
  token_is_data t = true -> parse_step st t = Some st' ->
  pending_is_data st' = true.
Proof.
  intros Ht. destruct st as [stack phase].
  assert (Hvalue : forall st', expect_value t stack = Some st' ->
                   pending_is_data st' = true).
  { intros st0. destruct t; simpl; try discriminate;
      try (intros [= <-]; reflexivity);
      apply deliver_is_data; [reflexivity | exact Ht]. }
  assert (Hkey : forall st', expect_key t stack = Some st' ->
                 pending_is_data st' = true).
  { intros st0. unfold expect_key.
    destruct t; try discriminate.
    destruct stack as [|[items|props [k|]] below]; try discriminate.
    intros [= <-]. reflexivity. }
  assert (Harr : forall st', close_array stack = Some st' ->
                 pending_is_data st' = true).
  { intros st0. unfold close_array.
    destruct stack as [|[items|props pending] below]; try discriminate.
    apply deliver_is_data. reflexivity. }
  assert (Hobj : forall st', close_object stack = Some st' ->
                 pending_is_data st' = true).
  { intros st0. unfold close_object.
    destruct stack as [|[items|props [k|]] below]; try discriminate.
    apply deliver_is_data. reflexivity. }
  destruct phase; cbn [parse_step]; auto.
  - destruct t; auto.
  - destruct t; auto.
  - destruct t; try discriminate. intros [= <-]. reflexivity.
  - destruct t; try discriminate; auto;
      destruct stack as [|[items|props pending] below]; try discriminate;
      intros [= <-]; reflexivity.
  - discriminate.
Qed.

Lemma parse_tokens_is_data ts : forall st v,
  forallb token_is_data ts = true -> pending_is_data st = true ->
  parse_tokens st ts = Some v -> is_json_data v = true.
Proof.
  induction ts as [|t rest IH]; intros st v Hts Hst; cbn [parse_tokens].
  - destruct st as [[|f stack] phase]; try discriminate.
    destruct phase; try discriminate. intros [= <-]. exact Hst.
  - cbn [forallb] in Hts. apply andb_true_iff in Hts. destruct Hts as [Ht Hrest].
    destruct (parse_step st t) as [st'|] eqn:Es; [|discriminate].
    apply IH; [exact Hrest | eapply parse_step_is_data; eassumption].
Qed.

Lemma JSON_parse_is_data text v :
  JSON_parse text = Some v -> is_json_data v = true.
Proof.
  unfold JSON_parse, lex.
  destruct (lex_from Idle text) as [ts|] eqn:El; [|discriminate].
  apply parse_tokens_is_data; [eapply lex_from_is_data, El | reflexivity].
Qed.

Section NeverUndefined.
Context {env : Environment}.

(** Whatever the text, the value the coercion gives is JSON data, and so is
    the value handed to [modify], whatever the original value: a save
    never writes [undefined]. *)
Theorem save_never_writes_undefined
  (text : JsString) (v originalValue : JsValue) :
  editedValue text = Normal v ->
  is_json_data v = true
  /\ is_json_data (valueToSet originalValue v) = true
  /\ valueToSet originalValue v <> JUndefined.
Proof.
  intros He.
  assert (Hv : is_json_data v = true).
  { unfold editedValue in He.
    destruct (JSON_parse text) as [v0|] eqn:E1.
    - injection He as <-. eapply JSON_parse_is_data, E1.
    - destruct (looks_like_literal (trim text)).
      + destruct (JSON_parse (trim text)) as [v0|] eqn:E2; [|discriminate].
        injection He as <-. eapply JSON_parse_is_data, E2.
      + injection He as <-. reflexivity. }
  assert (Hset : is_json_data (valueToSet originalValue v) = true).
  { unfold valueToSet.
    destruct (object_properties originalValue); [|exact Hv].
    destruct (object_properties v); [reflexivity | exact Hv]. }
  split; [exact Hv|]. split; [exact Hset|].
  intros E. rewrite E in Hset. discriminate.
Qed.

End NeverUndefined.

(** ** Quoted strings read back *)

Local Open Scope N_scope.

Lemma hex_value_hex_digit x : x < 16 -> hex_value (hex_digit x) = Some x.
Proof.
  intros H. destruct x as [|p]; [reflexivity|].
  do 4 (try (destruct p as [p|p|]; try reflexivity)); lia.
Qed.

Lemma hex_parts c : c < 65536 ->
  c / 4096 < 16 /\ (c / 256) mod 16 < 16 /\ (c / 16) mod 16 < 16 /\ c mod 16 < 16
  /\ ((c / 4096 * 16 + (c / 256) mod 16) * 16 + (c / 16) mod 16) * 16 + c mod 16 = c.
Proof.
  intros H.
  pose proof (N.div_mod c 16 ltac:(lia)).
  pose proof (N.div_mod (c / 16) 16 ltac:(lia)).
  pose proof (N.div_mod (c / 256) 16 ltac:(lia)).
  pose proof (N.mod_lt c 16 ltac:(lia)).
  pose proof (N.mod_lt (c / 16) 16 ltac:(lia)).
  pose proof (N.mod_lt (c / 256) 16 ltac:(lia)).
  assert (c / 256 = c / 16 / 16) by (rewrite N.Div0.div_div; reflexivity).
  assert (c / 4096 = c / 256 / 16) by (rewrite N.Div0.div_div; reflexivity).
  assert (c / 4096 < 16) by (apply N.Div0.div_lt_upper_bound; lia).
  repeat split; try assumption. lia.
Qed.

Lemma lex_from_step mode c rest mode' ts :
  lex_step mode c = Some (mode', ts) ->
  lex_from mode (c :: rest) = option_map (app ts) (lex_from mode' rest).
Proof.
  intros H. cbn [lex_from]. rewrite H. destruct (lex_from mode' rest); reflexivity.
Qed.

Lemma option_map_nil {A} (o : option (list A)) : option_map (app []) o = o.
Proof. destruct o; reflexivity. Qed.

Lemma unicode_escape_lex c buf rest : c < 65536 ->
  lex_from (InString buf) (unicode_escape c ++ rest) = lex_from (InString (c :: buf)) rest.
Proof.
  intros H. destruct (hex_parts c H) as (H1 & H2 & H3 & H4 & Hc).
  unfold unicode_escape. cbn [app].
  rewrite (lex_from_step (InString buf) BACKSLASH _ (InEscape buf) []) by reflexivity.
  rewrite (lex_from_step (InEscape buf) 117 _ (InUnicode buf []) []) by reflexivity.
  rewrite (lex_from_step (InUnicode buf []) _ _ (InUnicode buf [c / 4096]) [])
    by (cbn [lex_step]; rewrite hex_value_hex_digit by exact H1; reflexivity).
  rewrite (lex_from_step (InUnicode buf [c / 4096]) _ _ (InUnicode buf [c / 4096; (c / 256) mod 16]) [])
    by (cbn [lex_step]; rewrite hex_value_hex_digit by exact H2; reflexivity).
  rewrite (lex_from_step (InUnicode buf [c / 4096; (c / 256) mod 16]) _ _ (InUnicode buf [c / 4096; (c / 256) mod 16; (c / 16) mod 16]) [])
    by (cbn [lex_step]; rewrite hex_value_hex_digit by exact H3; reflexivity).
  rewrite (lex_from_step (InUnicode buf [c / 4096; (c / 256) mod 16; (c / 16) mod 16]) _ _ (InString (c :: buf)) [])
    by (cbn [lex_step]; rewrite hex_value_hex_digit by exact H4; rewrite Hc; reflexivity).
  rewrite !option_map_nil. reflexivity.
Qed.

Lemma raw_unit_lex c buf rest : 32 <= c -> c <> 34 -> c <> 92 ->
  lex_from (InString buf) (c :: rest) = lex_from (InString (c :: buf)) rest.
Proof.
  intros H1 H2 H3.
  rewrite (lex_from_step (InString buf) c _ (InString (c :: buf)) []).
  - apply option_map_nil.
  - cbn [lex_step]. unfold DQUOTE, BACKSLASH.
    destruct (N.eqb_spec c 34); [contradiction|].
    destruct (N.eqb_spec c 92); [contradiction|].
    destruct (N.ltb_spec c 32); [lia | reflexivity].
Qed.

Lemma escape_unit_lex c buf rest :
  lex_from (InString buf) (escape_unit c ++ rest) = lex_from (InString (c :: buf)) rest.
Proof.
  destruct (N.ltb_spec c 128) as [Hsmall|Hbig].
  - destruct c as [|p]; [apply (unicode_escape_lex 0); lia|].
    do 7 (try (destruct p as [p|p|])); try lia.
    all: try (apply raw_unit_lex; lia).
    all: try (apply unicode_escape_lex; lia).
    all: cbn; destruct (lex_from (InString (_ :: buf)) rest); reflexivity.
  - assert (E : escape_unit c = [c]).
    { destruct c as [|p]; [lia|].
      do 7 (try (destruct p as [p|p|])); try lia; reflexivity. }
    rewrite E. apply raw_unit_lex; lia.
Qed.

Lemma surrogate_small c : is_high_surrogate c = true \/ is_low_surrogate c = true ->
  c < 65536 /\ 32 <= c /\ c <> 34 /\ c <> 92.
Proof.
  unfold is_high_surrogate, is_low_surrogate.
  rewrite !andb_true_iff, !N.leb_le. lia.
Qed.

Lemma quote_units_lex s :
  (forall buf tail, lex_from (InString buf) (quote_units s ++ tail)
                    = lex_from (InString (rev s ++ buf)) tail)
  /\ (forall c buf tail, lex_from (InString buf) (quote_units (c :: s) ++ tail)
                    = lex_from (InString (rev (c :: s) ++ buf)) tail).
Proof.
  induction s as [|d s [IH1 IH2]].
  - split; [reflexivity|]. intros c buf tail. cbn [quote_units rev app].
    destruct (is_high_surrogate c) eqn:Eh.
    + apply unicode_escape_lex, surrogate_small. auto.
    + destruct (is_low_surrogate c) eqn:El.
      * rewrite app_nil_r. apply unicode_escape_lex, surrogate_small. auto.
      * rewrite app_nil_r. apply escape_unit_lex.
  - split; [apply IH2|]. intros c buf tail.
    assert (Hsingle : forall units,
      (forall b t, lex_from (InString b) (units ++ t) = lex_from (InString (c :: b)) t) ->
      lex_from (InString buf) ((units ++ quote_units (d :: s)) ++ tail)
      = lex_from (InString (rev (c :: d :: s) ++ buf)) tail).
    { intros units Hu. rewrite <- app_assoc, Hu, IH2.
      cbn [rev]. rewrite <- !app_assoc. reflexivity. }
    change (quote_units (c :: d :: s)) with
      (if is_high_surrogate c then
         if is_low_surrogate d then c :: d :: quote_units s
         else unicode_escape c ++ quote_units (d :: s)
       else if is_low_surrogate c then unicode_escape c ++ quote_units (d :: s)
       else escape_unit c ++ quote_units (d :: s)).
    destruct (is_high_surrogate c) eqn:Eh.
    + destruct (is_low_surrogate d) eqn:El.
      * destruct (surrogate_small c (or_introl Eh)) as (_ & A1 & A2 & A3).
        destruct (surrogate_small d (or_intror El)) as (_ & B1 & B2 & B3).
        cbn [app]. rewrite raw_unit_lex, raw_unit_lex, IH1 by assumption.
        cbn [rev]. rewrite <- !app_assoc. reflexivity.
      * apply Hsingle. intros b t. apply unicode_escape_lex, surrogate_small. auto.
    + destruct (is_low_surrogate c) eqn:El.
      * apply Hsingle. intros b t. apply unicode_escape_lex, surrogate_small. auto.
      * apply Hsingle. intros b t. apply escape_unit_lex.
Qed.

Lemma quote_lex s tail :
  lex_from Idle (quote s ++ tail) = option_map (cons (TString s)) (lex_from Idle tail).
Proof.
  unfold quote. rewrite <- !app_assoc. cbn [app].
  rewrite (lex_from_step Idle DQUOTE _ (InString []) []) by reflexivity.
  rewrite option_map_nil, (proj1 (quote_units_lex s)), app_nil_r.
  cbn [app].
  rewrite (lex_from_step (InString (rev s)) DQUOTE _ Idle [TString s]).
  - destruct (lex_from Idle tail); reflexivity.
  - cbn [lex_step]. rewrite rev_involutive. reflexivity.
Qed.

Lemma JSON_parse_quote s : JSON_parse (quote s) = Some (JStr s).
Proof.
  unfold JSON_parse, lex. rewrite <- (app_nil_r (quote s)), quote_lex. reflexivity.
Qed.

Local Close Scope N_scope.

Lemma lex_app_nonword t : forall mode ts c rest,
  lex_from mode t = Some ts -> is_word_char c = false ->
  lex_from mode (t ++ c :: rest) = option_map (app ts) (lex_from Idle (c :: rest)).
Proof.
  induction t as [|a t IH]; intros mode ts c rest Ht Hc.
  - cbn [app]. cbn [lex_from] in Ht.
    destruct mode as [|buf|buf|buf|buf hex]; try discriminate.
    + injection Ht as <-. rewrite option_map_nil. reflexivity.
    + destruct (read_word (rev buf)) as [tok|] eqn:Ew; [|discriminate].
      injection Ht as <-. cbn [lex_from lex_step]. rewrite Hc, Ew.
      destruct (lex_idle c) as [[m' ts']|]; [|reflexivity].
      destruct (lex_from m' rest); reflexivity.
  - cbn [lex_from] in Ht.
    destruct (lex_step mode a) as [[m' ts1]|] eqn:Es; [|discriminate].
    destruct (lex_from m' t) as [more|] eqn:Em; [|discriminate].
    injection Ht as <-. rewrite <- app_comm_cons.
    rewrite (lex_from_step _ _ _ _ _ Es), (IH _ _ c rest Em Hc).
    destruct (lex_from Idle (c :: rest)); simpl;
      [rewrite app_assoc|]; reflexivity.
Qed.

Lemma deliver_inside v stack st :
  (stack <> [] \/ is_container v = true) -> deliver v stack = Some st -> inside st = true.
Proof.
  destruct stack as [|[items|props [k|]] below]; simpl; try discriminate.
  - intros [H|H] [= <-]; [congruence | exact H].
  - intros _ [= <-]. reflexivity.
  - intros _ [= <-]. reflexivity.
Qed.

Lemma parse_step_inside st t st' :
  inside st = true -> parse_step st t = Some st' -> inside st' = true.
Proof.
  destruct st as [stack phase]. intros Hin.
  destruct stack as [|f below].
  - destruct phase; discriminate.
  - assert (Hvalue : forall st', expect_value t (f :: below) = Some st' -> inside st' = true).
    { intros st0. destruct t; cbn [expect_value]; try discriminate;
        try (intros [= <-]; reflexivity);
        apply deliver_inside; left; discriminate. }
    assert (Hkey : forall st', expect_key t (f :: below) = Some st' -> inside st' = true).
    { intros st0. unfold expect_key. destruct t; try discriminate.
      destruct f as [items|props [k|]]; try discriminate. intros [= <-]. reflexivity. }
    assert (Harr : forall st', close_array (f :: below) = Some st' -> inside st' = true).
    { intros st0. unfold close_array. destruct f; try discriminate.
      apply deliver_inside. right. reflexivity. }
    assert (Hobj : forall st', close_object (f :: below) = Some st' -> inside st' = true).
    { intros st0. unfold close_object. destruct f as [items|props [k|]]; try discriminate.
      apply deliver_inside. right. reflexivity. }
    destruct phase; cbn [parse_step]; auto.
    + destruct t; auto.
    + destruct t; auto.
    + destruct t; try discriminate. intros [= <-]. reflexivity.
    + destruct t; try discriminate; auto; destruct f; intros [= <-]; reflexivity.
    + discriminate.
Qed.

Lemma parse_tokens_inside ts : forall st v,
  inside st = true -> parse_tokens st ts = Some v -> is_container v = true.
Proof.
  induction ts as [|t rest IH]; intros st v Hin; cbn [parse_tokens].
  - destruct st as [[|f stack] phase]; try discriminate.
    destruct phase; try discriminate. intros [= <-]. exact Hin.
  - destruct (parse_step st t) as [st'|] eqn:Es; [|discriminate].
    apply IH. eapply parse_step_inside; eassumption.
Qed.

Lemma number_is_one_token ts n :
  parse_tokens ([], PValue) ts = Some (JNum n) -> ts = [TScalar (JNum n)].
Proof.
  destruct ts as [|t rest]; [discriminate|]. cbn [parse_tokens parse_step].
  destruct t; cbn [expect_value deliver]; try discriminate.
  - intros H. apply parse_tokens_inside in H; [discriminate | reflexivity].
  - intros H. apply parse_tokens_inside in H; [discriminate | reflexivity].
  - destruct rest; cbn [parse_tokens parse_step]; discriminate.
  - destruct rest; cbn [parse_tokens parse_step]; [|discriminate].
    intros [= ->]. reflexivity.
Qed.

Lemma serialize_lex v :
  reads_back v -> lex_from Idle (serialize_primitive v) = Some [value_token v].
Proof.
  destruct v as [s|n|[|]|]; cbn [serialize_primitive reads_back]; intros H;
    try reflexivity.
  - rewrite <- (app_nil_r (quote s)), quote_lex. reflexivity.
  - unfold value_token, as_json.
    destruct (Number.is_finite n); [|reflexivity].
    specialize (H eq_refl). unfold JSON_parse, lex in H.
    destruct (lex_from Idle (Number.toString n)) as [ts|]; [|discriminate].
    apply number_is_one_token in H. congruence.
Qed.

Lemma member_lex kv c rest :
  reads_back (snd kv) -> is_word_char c = false ->
  lex_from Idle (member_text kv ++ c :: rest)
  = option_map (app (member_tokens kv)) (lex_from Idle (c :: rest)).
Proof.
  intros Hv Hc. unfold member_text. rewrite <- !app_assoc, quote_lex.
  change (lit ": " ++ serialize_primitive (snd kv) ++ c :: rest)
    with (58%N :: 32%N :: (serialize_primitive (snd kv) ++ c :: rest)).
  rewrite (lex_from_step Idle 58%N _ Idle [TColon]) by reflexivity.
  rewrite (lex_from_step Idle 32%N _ Idle []) by reflexivity.
  rewrite option_map_nil, (lex_app_nonword _ _ _ c rest (serialize_lex _ Hv) Hc).
  destruct (lex_from Idle (c :: rest)); reflexivity.
Qed.

Lemma members_lex ms : forall m,
  reads_back (snd m) -> Forall (fun kv => reads_back (snd kv)) ms ->
  lex_from Idle (member_text m
                 ++ List.concat (map (app separator) (map member_text ms))
                 ++ [NEWLINE] ++ lit "}")
  = Some (member_tokens m ++ more_tokens ms ++ [TRBrace]).
Proof.
  induction ms as [|m' ms IH]; intros m Hm Hms.
  - cbn [map List.concat app more_tokens flat_map].
    rewrite member_lex by (exact Hm || reflexivity). reflexivity.
  - inversion Hms as [|? ? Hm' Hms']; subst.
    cbn [map List.concat more_tokens flat_map].
    unfold separator at 1. rewrite <- !app_assoc.
    change (lit "," ++ [NEWLINE] ++ lit "  " ++ member_text m' ++
            List.concat (map (app separator) (map member_text ms)) ++ [NEWLINE] ++ lit "}")
      with (44%N :: 10%N :: 32%N :: 32%N ::
            (member_text m' ++
             List.concat (map (app separator) (map member_text ms)) ++ [NEWLINE] ++ lit "}")).
    rewrite member_lex by (exact Hm || reflexivity).
    rewrite (lex_from_step Idle 44%N _ Idle [TComma]) by reflexivity.
    rewrite (lex_from_step Idle 10%N _ Idle []) by reflexivity.
    rewrite (lex_from_step Idle 32%N _ Idle []) by reflexivity.
    rewrite (lex_from_step Idle 32%N _ Idle []) by reflexivity.
    rewrite !option_map_nil, (IH m' Hm' Hms').
    reflexivity.
Qed.

Lemma object_lex props :
  Forall (fun kv => reads_back (snd kv)) props ->
  lex (JSON_stringify_2 props)
  = Some (TLBrace ::
          match props with
          | [] => []
          | m :: ms => member_tokens m ++ more_tokens ms
          end ++ [TRBrace]).
Proof.
  intros H. destruct props as [|m ms]; [reflexivity|].
  inversion H as [|? ? Hm Hms]; subst.
  unfold JSON_stringify_2, lex. rewrite join_separated.
  change (map (fun kv => quote (fst kv) ++ lit ": " ++ serialize_primitive (snd kv)) (m :: ms))
    with (map member_text (m :: ms)).
  cbn [map]. rewrite separated_cons.
  change (lit "{" ++ [NEWLINE] ++ lit "  " ++
          (member_text m ++ List.concat (map (app (lit "," ++ [NEWLINE] ++ lit "  ")) (map member_text ms)))
          ++ [NEWLINE] ++ lit "}")
    with (123%N :: 10%N :: 32%N :: 32%N ::
          ((member_text m ++ List.concat (map (app separator) (map member_text ms)))
           ++ [NEWLINE] ++ lit "}")).
  rewrite (lex_from_step Idle 123%N _ Idle [TLBrace]) by reflexivity.
  rewrite (lex_from_step Idle 10%N _ Idle []) by reflexivity.
  rewrite (lex_from_step Idle 32%N _ Idle []) by reflexivity.
  rewrite (lex_from_step Idle 32%N _ Idle []) by reflexivity.
  rewrite !option_map_nil, <- app_assoc, (members_lex ms m Hm Hms).
  reflexivity.
Qed.

Lemma member_parse kv acc phase rest :
  phase = PKey \/ phase = PKeyOrClose ->
  parse_tokens ([FObject acc None], phase) (member_tokens kv ++ rest)
  = parse_tokens ([FObject (define (fst kv) (as_json (snd kv)) acc) None], PAfter) rest.
Proof.
  intros [-> | ->]; destruct kv as [k v]; destruct v as [s|n|b|]; reflexivity.
Qed.

Lemma more_parse ms : forall acc,
  parse_tokens ([FObject acc None], PAfter) (more_tokens ms ++ [TRBrace])
  = Some (JObj (rebuilt ms acc)).
Proof.
  induction ms as [|m ms IH]; intros acc; [reflexivity|].
  cbn [more_tokens flat_map]. rewrite <- !app_assoc.
  change ((TComma :: member_tokens m) ++ flat_map (fun kv => TComma :: member_tokens kv) ms ++ [TRBrace])
    with (TComma :: (member_tokens m ++ (more_tokens ms ++ [TRBrace]))).
  cbn [parse_tokens parse_step].
  rewrite member_parse by (left; reflexivity). apply IH.
Qed.

Lemma JSON_parse_stringify props :
  Forall (fun kv => reads_back (snd kv)) props ->
  JSON_parse (JSON_stringify_2 props) = Some (JObj (rebuilt props [])).
Proof.
  intros H. unfold JSON_parse. rewrite (object_lex props H).
  destruct props as [|m ms]; [reflexivity|].
  cbn [parse_tokens parse_step expect_value]. rewrite <- app_assoc.
  rewrite member_parse by (right; reflexivity). rewrite more_parse.
  reflexivity.
Qed.

(** A text that is a string as [JSON.stringify] writes it, whatever the
    string holds (quotes, backslashes, control characters, surrogates), is
    coerced to that string. *)
Theorem quoted_text_is_its_string (s : JsString) :
  JSON_parse (quote s) = Some (JStr s)
  /\ editedValue (quote s) = Normal (JStr s).
Proof.
  split; [apply JSON_parse_quote|].
  unfold editedValue. rewrite JSON_parse_quote. reflexivity.
Qed.

(** ** The text shown for an object reads back as the object *)

Lemma lookup_rebuilt k (props : Props Primitive) : forall acc,
  lookup k (rebuilt props acc) =
  match lookup k (rev props) with
  | Some v => Some (as_json v)
  | None => lookup k acc
  end.
Proof.
  unfold rebuilt.
  induction props as [|[k0 v0] props IH]; intros acc; [reflexivity|].
  cbn [fold_left rev fst snd]. rewrite IH, lookup_app, lookup_define.
  destruct (lookup k (rev props)); [reflexivity|]. simpl.
  destruct (str_eq_dec k k0); reflexivity.
Qed.

Lemma lookup_none_keys {V : Type} k (p : Props V) :
  ~ In k (keys p) -> lookup k p = None.
Proof.
  intros H. apply has_own_false in H. unfold has_own in H.
  destruct (lookup k p); [discriminate | reflexivity].
Qed.

(** With distinct keys, the last binding of a key is its only one. *)
Lemma lookup_rev_distinct {V : Type} k (p : Props V) :
  NoDup (keys p) -> lookup k (rev p) = lookup k p.
Proof.
  unfold keys. induction p as [|[k0 v0] p IH]; intros Hnd; [reflexivity|].
  cbn [map fst] in Hnd. inversion Hnd as [|? ? Hout Hnd']; subst.
  cbn [rev]. rewrite lookup_app, (IH Hnd'). simpl.
  destruct (str_eq_dec k k0) as [->|NE]; [|destruct (lookup k p); reflexivity].
  rewrite (lookup_none_keys k0 p Hout). reflexivity.
Qed.

Lemma in_overwrite {V : Type} (kv : JsString * V) k v p :
  In kv (overwrite k v p) -> kv = (k, v) \/ In kv p.
Proof.
  induction p as [|[k0 v0] p IH]; simpl; [auto|].
  destruct (str_eq_dec k k0) as [->|NE]; simpl; intuition.
Qed.

Lemma in_insert_index {V : Type} (kv : JsString * V) i k v p :
  In kv (insert_index i k v p) -> kv = (k, v) \/ In kv p.
Proof.
  induction p as [|[k0 v0] p IH]; simpl; [intuition|].
  destruct (array_index k0) as [j|]; [destruct (j <? i)|]; simpl; intuition.
Qed.

Lemma in_define {V : Type} (kv : JsString * V) k v p :
  In kv (define k v p) -> kv = (k, v) \/ In kv p.
Proof.
  unfold define. destruct (has_own k p); [apply in_overwrite|].
  destruct (array_index k); [apply in_insert_index|].
  rewrite in_app_iff. simpl. intuition.
Qed.

Lemma assign_facts k v obj :
  (NoDup (keys (own obj)) -> NoDup (keys (own (assign k v obj))))
  /\ (forall kv, In kv (own (assign k v obj)) -> kv = (k, v) \/ In kv (own obj)).
Proof.
  unfold assign.
  destruct (str_eqb k PROTO && negb (has_own k (own obj))
            && has_Object_prototype obj).
  - destruct v; cbn [own]; auto.
  - cbn [own]. split; [apply nodup_define | intros kv; apply in_define].
Qed.

(** The object of lines 40 to 45 has distinct keys, and every property of
    it comes from a kept row. *)
Lemma collect_rows_facts rows : forall obj,
  (NoDup (keys (own obj)) ->
   NoDup (keys (own (fold_left collect_row rows obj))))
  /\ (forall kv, In kv (own (fold_left collect_row rows obj)) ->
                 In kv (kept_rows rows) \/ In kv (own obj)).
Proof.
  induction rows as [|row rest IH]; intros obj; [simpl; auto|].
  cbn [fold_left kept_rows]. rewrite collect_row_kept.
  destruct (kept_row row) as [[k0 v0]|]; cbn [fst snd].
  - destruct (assign_facts k0 v0 obj) as [Hnd Hin].
    destruct (IH (assign k0 v0 obj)) as [IHnd IHin].
    split; [auto|].
    intros kv H. apply IHin in H. destruct H as [H|H]; [left; right; exact H|].
    apply Hin in H. destruct H as [->|H]; [left; left; reflexivity | auto].
  - apply IH.
Qed.

(** [normalizeNodeData]: ["{}"] for a missing or an empty list; for a
    single row whose key is falsy, its value as a string; otherwise the
    two-space serialization of an object whose keys are distinct and whose
    properties all come from kept rows, and which, when no row is kept
    under the key [__proto__], has under each key the value of the last
    kept row with that key, and no other property. *)
Theorem normalizeNodeData_without_proto :
  normalizeNodeData None = lit "{}"
  /\ normalizeNodeData (Some []) = lit "{}"
  /\ (forall row,
        truthy_key (Graph.key row) = false ->
        normalizeNodeData (Some [row]) = ToString (Graph.value row))
  /\ (forall rows,
        rows <> [] ->
        (forall row, rows = [row] -> truthy_key (Graph.key row) = true) ->
        exists obj,
          normalizeNodeData (Some rows) = JSON_stringify_2 obj
          /\ NoDup (keys obj)
          /\ (forall kv, In kv obj -> In kv (kept_rows rows))
          /\ (row_value PROTO rows = None ->
              forall k, lookup k obj = row_value k rows)).
Proof.
  split; [reflexivity|]. split; [reflexivity|]. split.
  - intros row H. simpl. rewrite H. reflexivity.
  - intros rows Hne Hsingle.
    destruct (collect_rows_facts rows empty_object) as [Hnd Hin].
    exists (own (fold_left collect_row rows empty_object)).
    split; [|split; [|split]].
    + destruct rows as [|row rest]; [congruence|].
      unfold normalizeNodeData.
      destruct rest as [|row' rest]; [|reflexivity].
      rewrite (Hsingle row eq_refl). reflexivity.
    + apply Hnd. constructor.
    + intros kv Hkv. destruct (Hin kv Hkv) as [H|[]]. exact H.
    + intros Hproto k. rewrite collect_rows_lookup by exact Hproto.
      simpl. destruct (row_value k rows); reflexivity.
Qed.

(** The text shown for rows that give an object, and what the coercion
    reads from it. *)
Lemma shown_object_parse (rows : list Graph.NodeRow) :
  rows <> [] ->
  (forall row, rows = [row] -> truthy_key (Graph.key row) = true) ->
  (forall kv, In kv (kept_rows rows) -> reads_back (snd kv)) ->
  editedValue (normalizeNodeData (Some rows))
  = Normal (JObj (rebuilt (own (fold_left collect_row rows empty_object)) [])).
Proof.
  intros Hne Hsingle Hread.
  set (obj := fold_left collect_row rows empty_object).
  assert (Hshown : normalizeNodeData (Some rows) = JSON_stringify_2 (own obj)).
  { destruct rows as [|row rest]; [congruence|].
    unfold normalizeNodeData. destruct rest as [|row' rest]; [|reflexivity].
    rewrite (Hsingle row eq_refl). reflexivity. }
  destruct (collect_rows_facts rows empty_object) as [_ Hin].
  assert (Hvalues : Forall (fun kv => reads_back (snd kv)) (own obj)).
  { apply Forall_forall. intros kv Hkv. apply Hread.
    destruct (Hin kv Hkv) as [H|[]]. exact H. }
  rewrite Hshown. unfold editedValue.
  rewrite (JSON_parse_stringify (own obj) Hvalues). reflexivity.
Qed.

Lemma lookup_shown_object (rows : list Graph.NodeRow) k :
  row_value PROTO rows = None ->
  lookup k (rebuilt (own (fold_left collect_row rows empty_object)) [])
  = option_map as_json (row_value k rows).
Proof.
  intros Hproto.
  destruct (collect_rows_facts rows empty_object) as [Hnd _].
  rewrite lookup_rebuilt.
  rewrite lookup_rev_distinct by (apply Hnd; constructor).
  rewrite collect_rows_lookup by exact Hproto. simpl.
  destruct (row_value k rows); reflexivity.
Qed.

Lemma rebuilt_distinct (props : Props Primitive) : forall acc,
  NoDup (keys acc) -> NoDup (keys (rebuilt props acc)).
Proof.
  unfold rebuilt. induction props as [|kv props IH]; intros acc H; [exact H|].
  cbn [fold_left]. apply IH, nodup_define, H.
Qed.

(** The text [normalizeNodeData] shows for rows that give an object, put
    through the coercion unchanged, is read as an object with distinct
    keys; when no kept row has the key [__proto__], it holds under each key
    the value of the last kept row with that key, a number that is not
    finite having become [null]. This holds when the decimal form of every
    finite number among the kept values reads back as that number. *)
Theorem shown_object_reads_back (rows : list Graph.NodeRow) :
  rows <> [] ->
  (forall row, rows = [row] -> truthy_key (Graph.key row) = true) ->
  (forall kv, In kv (kept_rows rows) -> reads_back (snd kv)) ->
  exists props,
    editedValue (normalizeNodeData (Some rows)) = Normal (JObj props)
    /\ NoDup (keys props)
    /\ (row_value PROTO rows = None ->
        forall k, lookup k props = option_map as_json (row_value k rows)).
Proof.
  intros Hne Hsingle Hread.
  exists (rebuilt (own (fold_left collect_row rows empty_object)) []).
  split; [apply shown_object_parse; assumption|].
  split; [apply rebuilt_distinct; constructor|].
  intros Hproto k. apply lookup_shown_object, Hproto.
Qed.

(** ** A string without a key, shown and saved *)

Lemma plain_ends_trim s : plain_ends s = true -> trim s = s.
Proof.
  unfold plain_ends, trim. destruct s as [|c s]; [reflexivity|].
  destruct (rev (c :: s)) as [|d front] eqn:Er.
  - apply (f_equal (@List.length N)) in Er. rewrite length_rev in Er.
    discriminate.
  - rewrite !andb_true_iff, !negb_true_iff. intros [[[Hc _] Hd] _].
    cbn [trim_start]. rewrite Hc, Er. cbn [trim_start]. rewrite Hd, <- Er.
    apply rev_involutive.
Qed.

Lemma plain_ends_strip s : plain_ends s = true -> strip_quotes s = s.
Proof.
  unfold plain_ends, strip_quotes. destruct s as [|c s]; [reflexivity|].
  destruct (rev (c :: s)) as [|d front] eqn:Er.
  - apply (f_equal (@List.length N)) in Er. rewrite length_rev in Er.
    discriminate.
  - rewrite !andb_true_iff, !negb_true_iff. intros [[[_ Hc] _] Hd].
    rewrite Hc, Er, Hd. reflexivity.
Qed.

(** A node that is a single string row without a key shows the string as it
    is. Saved as shown, a string that reads as JSON is written back as the
    value it reads as (a number, a boolean, [null], ...); a string that
    does not read as JSON, does not look like a literal, and neither starts
    nor ends with white space or a double quote is written back as the
    same string. *)
Theorem keyless_string_saved_as_shown (s : JsString) :
  normalizeNodeData (Some [keyless_string_row s]) = s
  /\ (forall v, JSON_parse s = Some v ->
        editedValue (normalizeNodeData (Some [keyless_string_row s]))
        = Normal v)
  /\ (JSON_parse s = None -> looks_like_literal s = false ->
      plain_ends s = true ->
        editedValue (normalizeNodeData (Some [keyless_string_row s]))
        = Normal (JStr s)).
Proof.
  assert (Hshown : normalizeNodeData (Some [keyless_string_row s]) = s)
    by reflexivity.
  rewrite Hshown. split; [reflexivity|]. unfold editedValue. split.
  - intros v H. rewrite H. reflexivity.
  - intros H1 H2 H3. rewrite H1, (plain_ends_trim s H3), H2.
    rewrite (plain_ends_strip s H3). reflexivity.
Qed.

(** ** Rows none of which is kept *)

Lemma collect_nothing rows : forall obj,
  kept_rows rows = [] -> fold_left collect_row rows obj = obj.
Proof.
  induction rows as [|row rest IH]; intros obj H; [reflexivity|].
  cbn [fold_left kept_rows] in *. rewrite collect_row_kept.
  destruct (kept_row row); [discriminate | apply IH, H].
Qed.

(** When none of two or more rows is kept (each is an array or an object
    row, or has no key), the text shown is that of the empty object,
    whatever the rows hold. *)
Theorem normalizeNodeData_nothing_kept (rows : list Graph.NodeRow) :
  (2 <= List.length rows)%nat -> kept_rows rows = [] ->
  normalizeNodeData (Some rows) = lit "{}".
Proof.
  intros Hlen Hkept.
  destruct rows as [|row0 [|row1 rest]]; [simpl in Hlen; lia ..|].
  unfold normalizeNodeData. cbn [List.length Nat.eqb andb].
  rewrite (collect_nothing _ _ Hkept). reflexivity.
Qed.

(** ** Saving the text as shown *)

Section SavingUnchanged.
Context {env : Environment}.

(** When the rows of the node show fields of the original object (under
    each key a kept row has, the object holds the value of the row), the
    text shown for the node, saved unchanged, gives a merged object in
    which every key reads as it does in the original: such a save changes
    no field. *)
Theorem saving_the_shown_text_keeps_every_field
  (rows : list Graph.NodeRow) (o : Props JsValue) :
  rows <> [] ->
  (forall row, rows = [row] -> truthy_key (Graph.key row) = true) ->
  (forall kv, In kv (kept_rows rows) -> reads_back (snd kv)) ->
  row_value PROTO rows = None ->
  (forall k v, row_value k rows = Some v -> lookup k o = Some (as_json v)) ->
  exists edited merged,
    editedValue (normalizeNodeData (Some rows)) = Normal edited
    /\ valueToSet (JObj o) edited = JObj merged
    /\ forall k, lookup k merged = lookup k o.
Proof.
  intros Hne Hsingle Hread Hproto Hshow.
  exists (JObj (rebuilt (own (fold_left collect_row rows empty_object)) [])).
  eexists. split; [apply shown_object_parse; assumption|].
  split; [reflexivity|].
  intros k. rewrite lookup_spread2, (lookup_shown_object rows k Hproto).
  destruct (row_value k rows) as [v|] eqn:E; [|reflexivity].
  simpl. symmetry. apply Hshow, E.
Qed.

End SavingUnchanged.

(** ** The further properties at work on the sample document *)

Lemma getValueAtPath_below_null_witness :
  getValueAtPath sample_document
    ([Graph.Name (lit "missing")] ++ [Graph.Name (lit "below")]) = JNull.
Proof.
  apply (getValueAtPath_below_null (env := sample_environment));
    [right; reflexivity | discriminate].
Defined.

Lemma rejected_text_shows_message_witness :
  exists m,
    error (state (handleSave (sample_world (lit "1.2.3")))) = Some m
    /\ str_truthy m = true
    /\ value (state (handleSave (sample_world (lit "1.2.3")))) = lit "1.2.3"
    /\ stores (handleSave (sample_world (lit "1.2.3"))) = sample_stores.
Proof.
  apply (rejected_text_shows_message (env := sample_environment)
           (sample_world (lit "1.2.3")) sample_node
           (SyntaxError (lit "1.2.3")));
    reflexivity.
Defined.

Lemma cancel_discards_typing_witness :
  step ClickCancel
    (run [ClickEdit; ChangeText (lit "typed")] (NodeModal true sample_stores))
  = step ClickCancel (NodeModal true sample_stores).
Proof.
  apply (cancel_discards_typing (env := sample_environment)). reflexivity.
Defined.

Lemma error_only_in_edit_mode_witness :
  error (state (step ClickCancel
                  (step ClickSave
                     (step (ChangeText (lit "1.2.3"))
                        (step ClickEdit (NodeModal true sample_stores))))))
  = None.
Proof.
  apply (error_only_in_edit_mode (env := sample_environment) true sample_stores);
    [|reflexivity].
  repeat (apply reach_step; [|reflexivity]). apply reach_mount.
Defined.

Lemma edit_after_save_shows_saved_text_witness :
  displayed (step ClickEdit
               (step TimerElapsed (step ClickSave (sample_world sample_edit))))
  = sample_edit.
Proof.
  apply (edit_after_save_shows_saved_text (env := sample_environment)
           (sample_world sample_edit) sample_node sample_result);
    reflexivity.
Defined.

Lemma blank_text_is_the_empty_string_witness :
  editedValue (lit "  " ++ [NEWLINE; 160%N]) = Normal (JStr []).
Proof. apply blank_text_is_the_empty_string. reflexivity. Defined.

Lemma save_never_writes_undefined_witness :
  is_json_data (JStr (lit "abc")) = true
  /\ is_json_data (valueToSet JNull (JStr (lit "abc"))) = true
  /\ valueToSet JNull (JStr (lit "abc")) <> JUndefined.
Proof.
  apply (save_never_writes_undefined (env := sample_environment) (lit "abc")).
  reflexivity.
Defined.

Lemma sample_rows_read_back :
  forall kv, In kv (kept_rows (Graph.text sample_node)) -> reads_back (snd kv).
Proof.
  intros kv Hin.
  change (kept_rows (Graph.text sample_node))
    with [(lit "a", PNumber (Number.of_nat 1)); (lit "c", PString (lit "x"))]
    in Hin.
  destruct Hin as [<-|[<-|[]]]; [|exact I].
  intros _. vm_compute. reflexivity.
Defined.

Lemma shown_object_reads_back_witness :
  exists props,
    editedValue (normalizeNodeData (Some (Graph.text sample_node)))
    = Normal (JObj props)
    /\ NoDup (keys props)
    /\ (row_value PROTO (Graph.text sample_node) = None ->
        forall k, lookup k props
                  = option_map as_json (row_value k (Graph.text sample_node))).
Proof.
  apply shown_object_reads_back;
    [discriminate | intros row H; discriminate H | exact sample_rows_read_back].
Defined.

Lemma normalizeNodeData_nothing_kept_witness :
  normalizeNodeData
    (Some [{| Graph.key := Some (lit "b"); Graph.value := PNull;
              Graph.type := Graph.t_array |};
           {| Graph.key := Some (lit "d"); Graph.value := PNull;
              Graph.type := Graph.t_object |}]) = lit "{}".
Proof.
  apply normalizeNodeData_nothing_kept; [simpl; lia | reflexivity].
Defined.

Lemma sample_rows_show_the_document :
  forall k v,
    row_value k (Graph.text sample_node) = Some v ->
    lookup k (fields_of sample_document) = Some (as_json v).
Proof.
  intros k v. unfold row_value.
  change (rev (kept_rows (Graph.text sample_node)))
    with [(lit "c", PString (lit "x")); (lit "a", PNumber (Number.of_nat 1))].
  change (fields_of sample_document)
    with [(lit "a", JNum (Number.of_nat 1)); (lit "b", JArr [JNum (Number.of_nat 2)]);
          (lit "c", JStr (lit "x"))].
  cbn [lookup].
  destruct (str_eq_dec k (lit "c")) as [->|Hc].
  - intros [= <-]. reflexivity.
  - destruct (str_eq_dec k (lit "a")) as [->|Ha]; [|discriminate].
    intros [= <-]. reflexivity.
Defined.

Lemma saving_the_shown_text_keeps_every_field_witness :
  exists edited merged,
    editedValue (normalizeNodeData (Some (Graph.text sample_node)))
    = Normal edited
    /\ valueToSet (JObj (fields_of sample_document)) edited = JObj merged
    /\ forall k, lookup k merged = lookup k (fields_of sample_document).
Proof.
  apply (saving_the_shown_text_keeps_every_field (env := sample_environment));
    [discriminate | intros row H; discriminate H | exact sample_rows_read_back
    | reflexivity | exact sample_rows_show_the_document].
Defined.
